(** * megpost: deduplication of captured HTTP response transcripts

  A shallow embedding of [main.go]: the transcript splitter, the metric
  extractors, the fingerprint key and the walk-and-prune engine, with the
  parts of the Go library the program relies on ([unicode/utf8], [strings],
  [bufio.Scanner], [regexp], [strconv], [io.ReadFull], [os.Remove])
  modelled next to it.

  Go strings are byte sequences: they are embedded as [string], whose
  characters are 8-bit [ascii] values.  Runes and Go [int]s are [Z]. *)

From Stdlib Require Import ZArith NArith Ascii String.
From Stdlib Require Import DecimalString DecimalPos DecimalZ Lia.
From stdpp Require Import base list strings gmap fin_maps.

Local Open Scope Z_scope.

(* ===================================================================== *)
(** ** Bytes and strings *)
(* ===================================================================== *)

Module Bytes.

(** The numeric value of a byte. *)
Definition byte (c : ascii) : Z := Z.of_N (N_of_ascii c).

(** [len(s)], as a Go [int]. *)
Fixpoint len (s : string) : Z :=
  match s with
  | EmptyString => 0
  | String _ t => 1 + len t
  end.

(** [s[:n]] for [0 <= n]; the whole of [s] when [n] exceeds [len(s)]. *)
Fixpoint take (n : Z) (s : string) : string :=
  match s with
  | EmptyString => EmptyString
  | String c t => if n <=? 0 then EmptyString else String c (take (n - 1) t)
  end.

(** [s[n:]] for [0 <= n]; empty when [n] exceeds [len(s)]. *)
Fixpoint drop (n : Z) (s : string) : string :=
  match s with
  | EmptyString => EmptyString
  | String c t => if n <=? 0 then s else drop (n - 1) t
  end.

(** [len(s) >= n], looking at no more than [n] bytes of [s]. *)
Fixpoint at_least (n : Z) (s : string) : bool :=
  match s with
  | EmptyString => n <=? 0
  | String _ t => if n <=? 0 then true else at_least (n - 1) t
  end.

Fixpoint rev_onto (s acc : string) : string :=
  match s with
  | EmptyString => acc
  | String c t => rev_onto t (String c acc)
  end.

Definition rev (s : string) : string := rev_onto s EmptyString.

Definition eqb (a b : string) : bool := bool_decide (a = b).

End Bytes.

Import Bytes.

(* ===================================================================== *)
(** ** unicode/utf8 *)
(* ===================================================================== *)

Module utf8.

Definition RuneError : Z := 0xFFFD.
Definition RuneSelf : Z := 0x80.
Definition UTFMax : nat := 4.

Definition maskx : Z := 0x3F.
Definition mask2 : Z := 0x1F.
Definition mask3 : Z := 0x0F.
Definition mask4 : Z := 0x07.
Definition locb : Z := 0x80.
Definition hicb : Z := 0xBF.

(** One entry of the table [first]: what a leading byte announces. *)
Inductive lead : Type :=
| ASCII
| Invalid
| Lead (size : Z) (lo hi : Z).

(** The table [first], with the accept range of the second byte. *)
Definition first (b : Z) : lead :=
  if b <? 0x80 then ASCII
  else if b <? 0xC2 then Invalid
  else if b <? 0xE0 then Lead 2 locb hicb
  else if b =? 0xE0 then Lead 3 0xA0 hicb
  else if b <? 0xED then Lead 3 locb hicb
  else if b =? 0xED then Lead 3 locb 0x9F
  else if b <? 0xF0 then Lead 3 locb hicb
  else if b =? 0xF0 then Lead 4 0x90 hicb
  else if b <? 0xF4 then Lead 4 locb hicb
  else if b =? 0xF4 then Lead 4 locb 0x8F
  else Invalid.

Definition outside (lo hi b : Z) : bool := (b <? lo) || (hi <? b).

(** [utf8.DecodeRuneInString]: the first rune of [s] and its width in
    bytes; [(RuneError, 1)] on an invalid or truncated encoding. *)
Definition DecodeRuneInString (s : string) : Z * nat :=
  match s with
  | EmptyString => (RuneError, 0%nat)
  | String c0 t0 =>
    let s0 := byte c0 in
    match first s0 with
    | ASCII => (s0, 1%nat)
    | Invalid => (RuneError, 1%nat)
    | Lead sz lo hi =>
      if negb (at_least sz s) then (RuneError, 1%nat) else
      match t0 with
      | EmptyString => (RuneError, 1%nat)
      | String c1 t1 =>
        let s1 := byte c1 in
        if outside lo hi s1 then (RuneError, 1%nat) else
        if sz <=? 2 then
          (Z.lor (Z.shiftl (Z.land s0 mask2) 6) (Z.land s1 maskx), 2%nat)
        else
        match t1 with
        | EmptyString => (RuneError, 1%nat)
        | String c2 t2 =>
          let s2 := byte c2 in
          if outside locb hicb s2 then (RuneError, 1%nat) else
          if sz <=? 3 then
            (Z.lor (Z.lor (Z.shiftl (Z.land s0 mask3) 12)
                          (Z.shiftl (Z.land s1 maskx) 6))
                   (Z.land s2 maskx), 3%nat)
          else
          match t2 with
          | EmptyString => (RuneError, 1%nat)
          | String c3 _ =>
            let s3 := byte c3 in
            if outside locb hicb s3 then (RuneError, 1%nat) else
            (Z.lor (Z.lor (Z.lor (Z.shiftl (Z.land s0 mask4) 18)
                                 (Z.shiftl (Z.land s1 maskx) 12))
                          (Z.shiftl (Z.land s2 maskx) 6))
                   (Z.land s3 maskx), 4%nat)
          end
        end
      end
    end
  end.

Arguments DecodeRuneInString : simpl never.

(** [utf8.RuneStart]: the byte is not a continuation byte. *)
Definition RuneStart (b : Z) : bool := negb (Z.land b 0xC0 =? 0x80).

(** The search of [DecodeLastRuneInString] for the start of the last rune,
    on the reversed string [r] (last byte first): the least [k] in [2..4]
    whose byte [s[end-k]] starts a rune. *)
Definition last_start (r : string) : option nat :=
  match r with
  | String _ (String b2 t2) =>
    if RuneStart (byte b2) then Some 2%nat else
    match t2 with
    | String b3 t3 =>
      if RuneStart (byte b3) then Some 3%nat else
      match t3 with
      | String b4 _ => if RuneStart (byte b4) then Some 4%nat else None
      | EmptyString => None
      end
    | EmptyString => None
    end
  | _ => None
  end.

(** [utf8.DecodeLastRuneInString], on the reversed string. *)
Definition DecodeLastRuneInString (r : string) : Z * nat :=
  match r with
  | EmptyString => (RuneError, 0%nat)
  | String c _ =>
    if byte c <? RuneSelf then (byte c, 1%nat) else
    match last_start r with
    | None => (RuneError, 1%nat)
    | Some k =>
      let '(x, size) := DecodeRuneInString (rev (take (Z.of_nat k) r)) in
      if (size =? k)%nat then (x, size) else (RuneError, 1%nat)
    end
  end.

(** The runes of [s] with their byte offsets, as [for i, c := range s]
    visits them.  [skip] counts the bytes of the current rune still to be
    passed over. *)
Fixpoint range_from (i : Z) (skip : nat) (s : string) : list (Z * Z) :=
  match s with
  | EmptyString => []
  | String _ t =>
    match skip with
    | S k => range_from (i + 1) k t
    | O =>
      let '(r, w) := DecodeRuneInString s in
      (i, r) :: range_from (i + 1) (Nat.pred w) t
    end
  end.

Definition range (s : string) : list (Z * Z) := range_from 0 0 s.

End utf8.

(* ===================================================================== *)
(** ** unicode *)
(* ===================================================================== *)

Module unicode.

(** [unicode.IsSpace], which is also [bufio]'s [isSpace]: the Latin-1
    spaces and the code points of category Z and property Pattern_White_Space. *)
Definition IsSpace (r : Z) : bool :=
  if r <=? 0xFF then
    (r =? 0x20) || (r =? 0x09) || (r =? 0x0A) || (r =? 0x0B) || (r =? 0x0C)
    || (r =? 0x0D) || (r =? 0x85) || (r =? 0xA0)
  else if (0x2000 <=? r) && (r <=? 0x200a) then true
  else (r =? 0x1680) || (r =? 0x2028) || (r =? 0x2029) || (r =? 0x202f)
       || (r =? 0x205f) || (r =? 0x3000).

End unicode.

(* ===================================================================== *)
(** ** strings and strconv *)
(* ===================================================================== *)

Module strings.

(** [strings.HasPrefix]. *)
Fixpoint HasPrefix (s prefix : string) : bool :=
  match prefix, s with
  | EmptyString, _ => true
  | String _ _, EmptyString => false
  | String a p, String b t => if Ascii.eqb a b then HasPrefix t p else false
  end.

Fixpoint index_from (i : Z) (s substr : string) : Z :=
  if HasPrefix s substr then i else
  match s with
  | EmptyString => -1
  | String _ t => index_from (i + 1) t substr
  end.

(** [strings.Index]: the offset of the first occurrence, or [-1]. *)
Definition Index (s substr : string) : Z := index_from 0 s substr.

(** [strings.Contains]. *)
Definition Contains (s substr : string) : bool := 0 <=? Index s substr.

(** [strings.Replace(s, old, new, n)] for a non-empty [old] and [0 <= n]:
    the first [n] occurrences, found left to right without overlap. *)
Fixpoint Replace (s old new : string) (n : nat) : string :=
  match n with
  | O => s
  | S n' =>
    let j := Index s old in
    if j <? 0 then s
    else take j s +:+ new +:+ Replace (drop (j + len old) s) old new n'
  end.

(** [strings.TrimLeftFunc(s, unicode.IsSpace)]. *)
Definition TrimLeftSpace (s : string) : string :=
  match List.find (fun ir => negb (unicode.IsSpace ir.2)) (utf8.range s) with
  | Some (i, _) => drop i s
  | None => EmptyString
  end.

(** The backward loop of [strings.TrimRightFunc(s, unicode.IsSpace)], on the
    reversed string. *)
Fixpoint trim_right_rev (fuel : nat) (r : string) : string :=
  match fuel with
  | O => r
  | S fuel' =>
    match r with
    | EmptyString => EmptyString
    | String _ _ =>
      let '(x, size) := utf8.DecodeLastRuneInString r in
      if unicode.IsSpace x then trim_right_rev fuel' (drop (Z.of_nat size) r)
      else r
    end
  end.

Definition TrimRightSpace (s : string) : string :=
  rev (trim_right_rev (String.length s) (rev s)).

(** [strings.TrimSpace]: leading and trailing Unicode white space removed. *)
Definition TrimSpace (s : string) : string := TrimRightSpace (TrimLeftSpace s).

(** The loop of [strings.FieldsFunc(s, unicode.IsSpace)]: [start] is the
    offset of the field being read, negative between fields. *)
Definition fields_step (st : Z * list (Z * Z)) (ir : Z * Z) : Z * list (Z * Z) :=
  let '(start, spans) := st in
  let '(i, r) := ir in
  if unicode.IsSpace r then
    if 0 <=? start then (-1, spans ++ [(start, i)]) else (start, spans)
  else
    if start <? 0 then (i, spans) else (start, spans).

Definition field_spans (s : string) : list (Z * Z) :=
  let '(start, spans) := fold_left fields_step (utf8.range s) (-1, []) in
  if 0 <=? start then spans ++ [(start, len s)] else spans.

(** [strings.Fields]. *)
Definition Fields (s : string) : list string :=
  map (fun '(a, b) => take (b - a) (drop a s)) (field_spans s).

End strings.

Module strconv.

(** [strconv.Itoa], also the verb [%d] of [fmt] on an [int]. *)
Definition Itoa (n : Z) : string := NilZero.string_of_int (Z.to_int n).

End strconv.

(* ===================================================================== *)
(** ** Errors *)
(* ===================================================================== *)

Inductive error : Type :=
| EOF                 (* io.EOF *)
| ErrUnexpectedEOF    (* io.ErrUnexpectedEOF *)
| ErrTooLong          (* bufio.ErrTooLong *)
| ErrAdvanceTooFar    (* bufio.ErrAdvanceTooFar *)
| ErrNegativeAdvance  (* bufio.ErrNegativeAdvance *)
| ErrNoProgress       (* a split function that returns tokens without advancing *)
| ENOENT              (* no such file *)
| EACCES.             (* permission denied *)

(* ===================================================================== *)
(** ** bufio.Scanner *)
(* ===================================================================== *)

Module bufio.

Definition MaxScanTokenSize : Z := 64 * 1024.

(** A split function: from the buffered data and whether the input has
    ended, the number of bytes to advance and the token found, if any. *)
Definition SplitFunc : Type := string -> bool -> Z * option string.

Fixpoint index_byte_from (i : Z) (s : string) (c : ascii) : Z :=
  match s with
  | EmptyString => -1
  | String b t => if Ascii.eqb b c then i else index_byte_from (i + 1) t c
  end.

Definition dropCR (data : string) : string :=
  match rev data with
  | String "013" r => rev r
  | _ => data
  end.

(** [bufio.ScanLines]. *)
Definition ScanLines : SplitFunc := fun data atEOF =>
  if atEOF && (len data =? 0) then (0, None) else
  let i := index_byte_from 0 data "010" in
  if 0 <=? i then (i + 1, Some (dropCR (take i data))) else
  if atEOF then (len data, Some (dropCR data)) else
  (0, None).

(** The runes that follow the leading white space of [ScanWords]' data. *)
Fixpoint skip_spaces (rs : list (Z * Z)) : list (Z * Z) :=
  match rs with
  | [] => []
  | (i, r) :: rest => if unicode.IsSpace r then skip_spaces rest else rs
  end.

(** The offset just after the first white-space rune of [rs] together with
    the offset of that rune; [next] is the offset at which the data ends. *)
Fixpoint word_end (rs : list (Z * Z)) (next : Z) : option (Z * Z) :=
  match rs with
  | [] => None
  | (i, r) :: rest =>
    if unicode.IsSpace r then
      Some (i, match rest with [] => next | (j, _) :: _ => j end)
    else word_end rest next
  end.

(** [bufio.ScanWords]. *)
Definition ScanWords : SplitFunc := fun data atEOF =>
  let rs := skip_spaces (utf8.range data) in
  let start := match rs with [] => len data | (i, _) :: _ => i end in
  match word_end rs (len data) with
  | Some (i, after) => (after, Some (take (i - start) (drop start data)))
  | None =>
    if atEOF && (start <? len data) then (len data, Some (drop start data))
    else (start, None)
  end.

(** The loop of [Scanner.Scan], called until it returns [false]: the tokens
    delivered and the value of [Scanner.Err] at the end.  [pending] is the
    input not yet consumed.  The scanner's buffer grows to at most
    [MaxScanTokenSize] bytes, so the split function sees at most that many
    bytes of [pending], and learns that the input has ended only when the
    whole of [pending] fits with room to spare; a full buffer from which the
    split function obtains nothing is [ErrTooLong]. *)
Fixpoint scan (split : SplitFunc) (fuel : nat) (pending : string)
  : list string * option error :=
  match fuel with
  | O => ([], Some ErrNoProgress)
  | S fuel' =>
    let window := take MaxScanTokenSize pending in
    let atEOF := negb (at_least MaxScanTokenSize pending) in
    let '(advance, token) := split window atEOF in
    if advance <? 0 then ([], Some ErrNegativeAdvance) else
    if len window <? advance then ([], Some ErrAdvanceTooFar) else
    match token with
    | Some t =>
      if advance =? 0 then ([t], Some ErrNoProgress) else
      let '(ts, e) := scan split fuel' (drop advance pending) in (t :: ts, e)
    | None =>
      if atEOF then ([], None) else
      if advance =? 0 then ([], Some ErrTooLong) else
      scan split fuel' (drop advance pending)
    end
  end.

(** A scanner over the whole of [input]; every round consumes at least one
    byte, so [S (length input)] rounds are enough. *)
Definition Scanner (split : SplitFunc) (input : string) : list string * option error :=
  scan split (S (String.length input)) input.

End bufio.

(* ===================================================================== *)
(** ** regexp *)
(* ===================================================================== *)

Module regexp.

(** The syntax the program's patterns need.  Matching is on bytes: every
    literal of the program's patterns is ASCII, and an ASCII byte is always
    a rune of its own, so the matches have the same boundaries as the
    rune-wise matches of Go. *)
Inductive regex : Type :=
| Eps                                  (* the empty pattern *)
| Class (p : ascii -> bool)            (* one character of a class *)
| Cat (a b : regex)                    (* ab *)
| Alt (a b : regex)                    (* a|b, a preferred *)
| Star (greedy : bool) (a : regex)     (* a* or a*? *)
| Group (n : nat) (a : regex).         (* the n-th capturing group *)

Definition Plus (greedy : bool) (a : regex) : regex := Cat a (Star greedy a).

(** The text captured by the groups, latest first. *)
Definition captures : Type := list (nat * string).

(** A backtracking matcher in continuation-passing style: [run a pos s cs k]
    matches [a] at the front of [s], which stands at offset [pos], and hands
    the offset, the rest of the input and the captures to [k]; when [k]
    fails the next way of matching [a] is tried, in the order of preference
    of Go's leftmost-first semantics.  An iteration of a star that consumes
    nothing is not repeated. *)
Fixpoint run {R : Type} (a : regex) (pos : Z) (s : string) (cs : captures)
    (k : Z -> string -> captures -> option R) : option R :=
  match a with
  | Eps => k pos s cs
  | Class p =>
    match s with
    | String c t => if p c then k (pos + 1) t cs else None
    | EmptyString => None
    end
  | Cat a1 a2 => run a1 pos s cs (fun pos' s' cs' => run a2 pos' s' cs' k)
  | Alt a1 a2 =>
    match run a1 pos s cs k with
    | Some x => Some x
    | None => run a2 pos s cs k
    end
  | Star greedy a1 =>
    (fix loop (fuel : nat) (pos : Z) (s : string) (cs : captures) : option R :=
       match fuel with
       | O => k pos s cs
       | S fuel' =>
         let again pos' s' cs' :=
           if pos <? pos' then loop fuel' pos' s' cs' else None in
         if greedy then
           match run a1 pos s cs again with
           | Some x => Some x
           | None => k pos s cs
           end
         else
           match k pos s cs with
           | Some x => Some x
           | None => run a1 pos s cs again
           end
       end) (String.length s) pos s cs
  | Group n a1 =>
    run a1 pos s cs (fun pos' s' cs' => k pos' s' ((n, take (pos' - pos) s) :: cs'))
  end.

(** The match of [a] that starts at the front of [s]: its end offset and
    captures. *)
Definition match_here (a : regex) (pos : Z) (s : string) : option (Z * captures) :=
  run a pos s [] (fun pos' _ cs => Some (pos', cs)).

(** The leftmost match of [a] in [s]: start offset, end offset, the text
    that follows the start, and the captures. *)
Fixpoint search (a : regex) (pos : Z) (s : string) : option (Z * Z * string * captures) :=
  match match_here a pos s with
  | Some (e, cs) => Some (pos, e, s, cs)
  | None =>
    match s with
    | EmptyString => None
    | String _ t => search a (pos + 1) t
    end
  end.

Fixpoint capture (n : nat) (cs : captures) : string :=
  match cs with
  | [] => EmptyString
  | (m, t) :: rest => if (m =? n)%nat then t else capture n rest
  end.

(** [NumSubexp]. *)
Fixpoint NumSubexp (a : regex) : nat :=
  match a with
  | Eps | Class _ => 0
  | Cat a1 a2 | Alt a1 a2 => NumSubexp a1 + NumSubexp a2
  | Star _ a1 => NumSubexp a1
  | Group _ a1 => S (NumSubexp a1)
  end.

(** [Regexp.FindStringSubmatch]: [nil] without a match, else the text of
    the leftmost match followed by the text of each group (empty for a
    group that took no part). *)
Definition FindStringSubmatch (a : regex) (s : string) : list string :=
  match search a 0 s with
  | None => []
  | Some (b, e, t, cs) =>
    take (e - b) t :: map (fun n => capture n cs) (seq 1 (NumSubexp a))
  end.

(** The loop of [Regexp.FindAllString(s, -1)]: successive matches, each
    searched from the end of the one before.  [skip] counts the bytes of the
    last match still to be passed over.  Of an empty match, which no pattern
    of this program has, only the one that does not touch the match before it
    is delivered. *)
Fixpoint all_from (a : regex) (pos : Z) (skip : Z) (prevMatchEnd : Z) (s : string)
  : list string :=
  let continue skip' prev :=
    match s with
    | EmptyString => []
    | String _ t => all_from a (pos + 1) skip' prev t
    end in
  if 0 <? skip then continue (skip - 1) prevMatchEnd else
  match match_here a pos s with
  | None => continue 0 prevMatchEnd
  | Some (e, _) =>
    if e =? pos then
      if pos =? prevMatchEnd then continue 0 e
      else EmptyString :: continue 0 e
    else take (e - pos) s :: continue (e - pos - 1) e
  end.

(** [Regexp.FindAllString(s, -1)]. *)
Definition FindAllString (a : regex) (s : string) : list string :=
  all_from a 0 0 (-1) s.

(** *** Building patterns *)

Definition chr (c : ascii) : regex := Class (Ascii.eqb c).
Arguments chr c%_char.

(** A literal character under the flag [i]. *)
Definition fold_case (c : ascii) : ascii :=
  let n := byte c in
  if (0x41 <=? n) && (n <=? 0x5A) then ascii_of_N (Z.to_N (n + 32)) else c.

Definition chr_i (c : ascii) : regex :=
  Class (fun x => Ascii.eqb (fold_case x) (fold_case c)).

Fixpoint lit_with (one : ascii -> regex) (s : string) : regex :=
  match s with
  | EmptyString => Eps
  | String c EmptyString => one c
  | String c t => Cat (one c) (lit_with one t)
  end.

Definition lit : string -> regex := lit_with chr.
Definition lit_i : string -> regex := lit_with chr_i.

(** [.] without the flag [s]: any character but a newline. *)
Definition dot : regex := Class (fun c => negb (Ascii.eqb c "010")).

(** [\s], which is [[\t\n\f\r ]]. *)
Definition space : regex :=
  Class (fun c => Ascii.eqb c "009" || Ascii.eqb c "010" || Ascii.eqb c "012"
                  || Ascii.eqb c "013" || Ascii.eqb c " ").

(** [\d], which is [[0-9]]. *)
Definition digit : regex :=
  Class (fun c => (0x30 <=? byte c) && (byte c <=? 0x39)).

Fixpoint cat (l : list regex) : regex :=
  match l with
  | [] => Eps
  | [a] => a
  | a :: rest => Cat a (cat rest)
  end.

End regexp.

(* ===================================================================== *)
(** ** Go integers *)
(* ===================================================================== *)

Module Int.

(** A Go [int] is 64 bits wide, two's complement. *)
Definition wrap (z : Z) : Z := (z + 2 ^ 63) mod 2 ^ 64 - 2 ^ 63.

(** [x++]. *)
Definition incr (z : Z) : Z := wrap (z + 1).

End Int.

(* ===================================================================== *)
(** ** The file system: os and io *)
(* ===================================================================== *)

(** A regular file: its bytes, whether [os.Open] is permitted and whether
    [os.Remove] is. *)
Record file : Type := File {
  data : string;
  readable : bool;
  removable : bool
}.

Module os.

(** [os.Open]: a reader positioned at the start of the file.  A reader is
    the bytes it has not yet delivered. *)
Definition Open (fs : gmap string file) (path : string) : string + error :=
  match fs !! path with
  | None => inr ENOENT
  | Some f => if readable f then inl (data f) else inr EACCES
  end.

(** [os.Remove]. *)
Definition Remove (fs : gmap string file) (path : string)
  : gmap string file * option error :=
  match fs !! path with
  | None => (fs, Some ENOENT)
  | Some f => if removable f then (delete path fs, None) else (fs, Some EACCES)
  end.

End os.

Module io.

(** [io.ReadFull(r, buf)] with [len(buf) = n]: the bytes read, the reader
    afterwards, and the error: [EOF] when nothing could be read,
    [ErrUnexpectedEOF] when the input ended before the buffer was full. *)
Definition ReadFull (r : string) (n : Z) : string * string * option error :=
  let buf := take n r in
  let err :=
    if n <=? len buf then None
    else if 0 <? len buf then Some ErrUnexpectedEOF
    else Some EOF in
  (buf, drop n r, err).

End io.

(* ===================================================================== *)
(** ** net/url *)
(* ===================================================================== *)

Module url.

(** What the program reads of a parsed URL: [URL.Host] and [URL.Query()]. *)
Record URL : Type := mkURL {
  Host : string;
  Query : gmap string (list string)
}.

End url.

(* ===================================================================== *)
(** ** main.go *)
(* ===================================================================== *)

(** [type FileMetrics struct].  The fields live in a module of their own,
    as several share their name with the function that computes them. *)
Module FileMetrics.

Record t : Type := Build {
  Status : string;
  Length : Z;
  Words : Z;
  Lines : Z;
  ContentType : string;
  RedirectLocation : string;
  Resultfile : string;
  Url : string;
  Host : string;
  CountHeaders : string;
  RedirectDomain : string;
  CountRedirectParameters : string;
  LengthTitle : string;
  WordsTitle : string;
  CountCssFiles : string;
  CountJsFiles : string;
  CountTags : string;
  KeepReason : string;
  IsInteresting : bool
}.

(** [var metrics FileMetrics]: the zero value. *)
Definition zero : t :=
  Build "" 0 0 0 "" "" "" "" "" "" "" "" "" "" "" "" "" "" false.

(** [metrics.Words = w]. *)
Definition set_Words (w : Z) (m : t) : t :=
  Build (Status m) (Length m) w (Lines m) (ContentType m) (RedirectLocation m)
        (Resultfile m) (Url m) (Host m) (CountHeaders m) (RedirectDomain m)
        (CountRedirectParameters m) (LengthTitle m) (WordsTitle m)
        (CountCssFiles m) (CountJsFiles m) (CountTags m) (KeepReason m)
        (IsInteresting m).

End FileMetrics.

Import regexp.

(** The pattern [HTTP/ .*? \s+ ( \d+ ) \s+], written here with blanks
    between its parts, as are the patterns below. *)
Definition statusRegex : regex :=
  cat [lit "HTTP/"; Star false dot; Plus true space;
       Group 1 (Plus true digit); Plus true space].

(** [Content-Type:] and a blank, then [( .* )]. *)
Definition contentTypeRegex : regex :=
  cat [lit "Content-Type: "; Group 1 (Star true dot)].

(** [Location:] and a blank, then [( .* )]. *)
Definition redirectLocationRegex : regex :=
  cat [lit "Location: "; Group 1 (Star true dot)].

(** [<title> ( .*? ) </title>] under the flags [m] and [i]. *)
Definition titleRegex : regex :=
  cat [lit_i "<title>"; Group 1 (Star false dot); lit_i "</title>"].

(** [\.css ( \? | )]: the text [.css] and an optional question mark. *)
Definition cssRegex : regex := cat [lit ".css"; Group 1 (Alt (chr "?") Eps)].

(** [\.js ( \? | )]: the text [.js] and an optional question mark. *)
Definition jsRegex : regex := cat [lit ".js"; Group 1 (Alt (chr "?") Eps)].

(** [( .* ) : ( .* )]. *)
Definition headerRegex : regex :=
  cat [Group 1 (Star true dot); chr ":"; Group 2 (Star true dot)].

(** [< ( .*? ) >]. *)
Definition tagsRegex : regex := cat [chr "<"; Group 1 (Star false dot); chr ">"].

(** A double or single quote, an optional [\s], a colon, an optional [\s]
    and an optional double or single quote, each part a group; the character
    034 is the double quote. *)
Definition jsonRegex : regex :=
  cat [Group 1 (Alt (chr "034") (chr "'")); Group 2 (Alt space Eps); chr ":";
       Group 3 (Alt space Eps); Group 4 (Alt (chr "034") (Alt (chr "'") Eps))].

(** [( PUDAX | DUPA | INJECTX )] under the flags [m] and [i]. *)
Definition interestingContent : regex :=
  Group 1 (Alt (lit_i "PUDAX") (Alt (lit_i "DUPA") (lit_i "INJECTX"))).

(** [len(l)] of a slice, as a Go [int]. *)
Definition slice_len {A : Type} (l : list A) : Z := Z.of_nat (length l).

Definition GetRedirectLocation (headers : string) : string :=
  let redirects := FindStringSubmatch redirectLocationRegex headers in
  if 0 <? slice_len redirects then nth 1 redirects "" else "".

Definition IsInterestingContent (headers body : string) : bool :=
  (0 <? slice_len (FindAllString interestingContent headers))
  || (0 <? slice_len (FindAllString interestingContent body)).

Definition GetStatus (headers : string) : string :=
  let status := FindStringSubmatch statusRegex headers in
  if 0 <? slice_len status then nth 1 status "" else "".

Definition GetContentType (headers : string) : string :=
  let content := FindStringSubmatch contentTypeRegex headers in
  if 0 <? slice_len content then nth 1 content "" else "".

Definition CountTags (contentType body : string) : string :=
  if strings.Contains contentType "html" || strings.Contains contentType "xml" then
    strconv.Itoa (slice_len (FindAllString tagsRegex body))
  else if strings.Contains contentType "json" then
    strconv.Itoa (slice_len (FindAllString jsonRegex body))
  else "0".

Definition CountCssFiles (body : string) : string :=
  strconv.Itoa (slice_len (FindAllString cssRegex body)).

Definition CountJsFiles (body : string) : string :=
  strconv.Itoa (slice_len (FindAllString jsRegex body)).

Definition CalculateTitleLength (body : string) : string :=
  let matches := FindStringSubmatch titleRegex body in
  if slice_len matches =? 2 then strconv.Itoa (len (nth 1 matches "")) else "0".

Definition CalculateTitleWords (body : string) : string :=
  let matches := FindStringSubmatch titleRegex body in
  if slice_len matches =? 2
  then strconv.Itoa (slice_len (strings.Fields (nth 1 matches "")))
  else "0".

Definition CountHeaders (headerString : string) : string :=
  strconv.Itoa (slice_len (FindAllString headerRegex headerString)).

(** The first loop of [SeperateContentIntoHeadersAndBody]: the offset of the
    first rune ['<'] whose predecessor is a newline. *)
Fixpoint find_response (prev : Z) (rs : list (Z * Z)) : option Z :=
  match rs with
  | [] => None
  | (i, c) :: rest =>
    if (prev =? 0x0A) && (c =? 0x3C) then Some i else find_response c rest
  end.

(** The body of the second loop: [inHeaders] and the two builders. *)
Definition separate_line (st : bool * string * string) (line : string)
  : bool * string * string :=
  let '(inHeaders, HeaderBuilder, BodyBuilder) := st in
  if inHeaders then
    if eqb line "" then (false, HeaderBuilder, BodyBuilder)
    else (true,
          HeaderBuilder +:+ strings.Replace line "< " "" 1 +:+ String "010" "",
          BodyBuilder)
  else (false, HeaderBuilder, BodyBuilder +:+ line +:+ String "010" "").

Definition SeperateContentIntoHeadersAndBody (Content : string) : string * string :=
  let EntireResponse :=
    match find_response 0 (utf8.range Content) with
    | Some i => drop i Content
    | None => ""
    end in
  let lines := fst (bufio.Scanner bufio.ScanLines EntireResponse) in
  let '(_, HeaderBuilder, BodyBuilder) :=
    fold_left separate_line lines (true, "", "") in
  (strings.TrimSpace HeaderBuilder, strings.TrimSpace BodyBuilder).

(** The verb [%t] of [fmt]. *)
Definition fmt_t (b : bool) : string := if b then "true" else "false".

(** [fmt.Sprintf] with the format [%s-%d-%s-%s-%s-%s-%s-%s-%s-%s-%s-%s-%t]. *)
Definition keyForMetrics (m : FileMetrics.t) : string :=
  FileMetrics.Status m +:+ "-" +:+
  strconv.Itoa (FileMetrics.Words m) +:+ "-" +:+
  FileMetrics.ContentType m +:+ "-" +:+
  FileMetrics.RedirectLocation m +:+ "-" +:+
  FileMetrics.CountHeaders m +:+ "-" +:+
  FileMetrics.RedirectDomain m +:+ "-" +:+
  FileMetrics.CountRedirectParameters m +:+ "-" +:+
  FileMetrics.LengthTitle m +:+ "-" +:+
  FileMetrics.WordsTitle m +:+ "-" +:+
  FileMetrics.CountCssFiles m +:+ "-" +:+
  FileMetrics.CountJsFiles m +:+ "-" +:+
  FileMetrics.CountTags m +:+ "-" +:+
  fmt_t (FileMetrics.IsInteresting m).

(** The fields the key is built from, in the order of the format. *)
Definition key_fields (m : FileMetrics.t)
  : string * Z * string * string * string * string * string * string * string
    * string * string * string * bool :=
  (FileMetrics.Status m, FileMetrics.Words m, FileMetrics.ContentType m,
   FileMetrics.RedirectLocation m, FileMetrics.CountHeaders m,
   FileMetrics.RedirectDomain m, FileMetrics.CountRedirectParameters m,
   FileMetrics.LengthTitle m, FileMetrics.WordsTitle m,
   FileMetrics.CountCssFiles m, FileMetrics.CountJsFiles m,
   FileMetrics.CountTags m, FileMetrics.IsInteresting m).

(** [sub] occurs in [s]. *)
Definition has_substring (s sub : string) : Prop :=
  ∃ pre post, s = pre +:+ sub +:+ post.



(** One visit of [filepath.Walk]: the arguments of the callback. *)
Record entry : Type := Entry {
  path : string;
  isDir : bool;               (* info.IsDir() *)
  walkErr : option error      (* err *)
}.

(** What the pruning pass prints and logs. *)
Inductive event : Type :=
| GroupLine (key : string) (n : Z) (first : string)  (* Group ... contains ... files. To save: ... *)
| CantRemove (dup : string) (e : error)              (* [-] the removal failed *)
| DuplicateRemoved (dup : string)                    (* [+] Duplicate removed: ... *)
| Total (removed : Z).                               (* [!] Removed ... files total *)

(** The state of the pruning pass: the file system, the counter [removed]
    and the output so far. *)
Record pruning : Type := Pruning {
  disk : gmap string file;
  removed : Z;
  output : list event
}.

(** [for _, dup := range files[1:]]: one round. *)
Definition remove_dup (st : pruning) (dup : string) : pruning :=
  match os.Remove (disk st) dup with
  | (fs', Some err) => Pruning fs' (removed st) (output st ++ [CantRemove dup err])
  | (fs', None) =>
    Pruning fs' (Int.incr (removed st)) (output st ++ [DuplicateRemoved dup])
  end.

(** [for key, files := range groupedFiles]: one round. *)
Definition prune_group (st : pruning) (group : string * list string) : pruning :=
  let '(key, files) := group in
  if 1 <? slice_len files then
    let st1 := Pruning (disk st) (removed st)
                 (output st ++ [GroupLine key (slice_len files) (nth 0 files "")]) in
    fold_left remove_dup (List.tail files) st1
  else st.

(** The pruning pass, visiting the groups in the order [order]: Go leaves
    the iteration order of a map unspecified. *)
Definition prune (fs : gmap string file) (order : list (string * list string))
  : pruning :=
  let st := fold_left prune_group order (Pruning fs 0 []) in
  Pruning (disk st) (removed st) (output st ++ [Total (removed st)]).

(** The paths on which the pruning pass calls [os.Remove], in order. *)
Definition doomed (order : list (string * list string)) : list string :=
  group ← order; if 1 <? slice_len group.2 then List.tail group.2 else [].

(** The path an output line about a removal names. *)
Definition removal_of (ev : event) : option (string * bool) :=
  match ev with
  | CantRemove dup _ => Some (dup, false)
  | DuplicateRemoved dup => Some (dup, true)
  | GroupLine _ _ _ | Total _ => None
  end.

(** The removals a sequence of output lines reports: each path with
    whether it was removed. *)
Definition removals (out : list event) : list (string * bool) :=
  omap removal_of out.

(** How many removals succeeded. *)
Definition successes (rs : list (string * bool)) : nat :=
  length (filter (λ r, r.2 = true) rs).

(** What a call of [os.Remove] in the pruning pass does to the file system,
    to the counter and to the removals reported. *)
Definition remove_step (c : gmap string file * Z * list (string * bool)) (dup : string)
  : gmap string file * Z * list (string * bool) :=
  let '(fs, n, rs) := c in
  match os.Remove fs dup with
  | (fs', Some _) => (fs', n, rs ++ [(dup, false)])
  | (fs', None) => (fs', Int.incr n, rs ++ [(dup, true)])
  end.

Arguments remove_step : simpl never.

Definition summary (st : pruning) : gmap string file * Z * list (string * bool) :=
  (disk st, removed st, removals (output st)).

Section Program.

(** [url.Parse], of package [net/url]: [None] stands for an error. *)
Variable url_Parse : string -> option url.URL.

Definition ExtractRedirectDomain (urlStr : string) : string :=
  match url_Parse urlStr with
  | None => ""
  | Some parsedURL => url.Host parsedURL
  end.

Definition CountRedirectParameters (urlStr : string) : string :=
  match url_Parse urlStr with
  | None => "0"
  | Some parsedURL => strconv.Itoa (Z.of_nat (size (url.Query parsedURL)))
  end.

(** [computeMetrics]: the metrics and the error returned. *)
Definition computeMetrics (fs : gmap string file) (path : string)
  : FileMetrics.t * option error :=
  match os.Open fs path with
  | inr err => (FileMetrics.zero, Some err)
  | inl file =>
    let '(content, file, err) := io.ReadFull file 1000000 in
    match err with
    | Some EOF | Some ErrTooLong | Some ErrAdvanceTooFar | Some ErrNegativeAdvance
    | Some ErrNoProgress | Some ENOENT | Some EACCES =>
      (FileMetrics.zero, err)
    | Some ErrUnexpectedEOF | None =>
      let '(Headers, Body) := SeperateContentIntoHeadersAndBody content in
      let Status := GetStatus Headers in
      let ContentType := GetContentType Headers in
      let RedirectLocation := GetRedirectLocation Headers in
      let RedirectDomain := ExtractRedirectDomain RedirectLocation in
      let CountRedirectParameters := CountRedirectParameters RedirectLocation in
      let IsInteresting := IsInterestingContent Headers Body in
      let CountHeaders := CountHeaders Headers in
      let LengthTitle := CalculateTitleLength Body in
      let WordsTitle := CalculateTitleWords Body in
      let CountCssFiles := CountCssFiles Body in
      let CountJsFiles := CountJsFiles Body in
      let CountTags := CountTags ContentType Body in
      let metrics :=
        FileMetrics.Build Status 0 0 0 ContentType RedirectLocation "" "" ""
          CountHeaders RedirectDomain CountRedirectParameters LengthTitle
          WordsTitle CountCssFiles CountJsFiles CountTags "" IsInteresting in
      let '(words, serr) := bufio.Scanner bufio.ScanWords file in
      let metrics :=
        FileMetrics.set_Words
          (fold_left (fun w _ => Int.incr w) words (FileMetrics.Words metrics))
          metrics in
      (metrics, serr)
    end
  end.

(** The callback of [filepath.Walk] in [main]; it always returns [nil], so
    the walk visits every entry. *)
Definition walkFn (fs : gmap string file) (groupedFiles : gmap string (list string))
    (e : entry) : gmap string (list string) :=
  match walkErr e with
  | Some _ => groupedFiles
  | None =>
    if isDir e then groupedFiles else
    match computeMetrics fs (path e) with
    | (_, Some _) => groupedFiles
    | (metrics, None) =>
      let key := keyForMetrics metrics in
      <[key := default [] (groupedFiles !! key) ++ [path e]]> groupedFiles
    end
  end.

(** The walk over the entries [filepath.Walk] visits, in its order. *)
Definition walk (fs : gmap string file) (entries : list entry)
  : gmap string (list string) :=
  fold_left (walkFn fs) entries ∅.

(** The key under which the walk files an entry, if it files it at all. *)
Definition accepted (fs : gmap string file) (e : entry) : option string :=
  match walkErr e with
  | Some _ => None
  | None =>
    if isDir e then None else
    match computeMetrics fs (path e) with
    | (_, Some _) => None
    | (metrics, None) => Some (keyForMetrics metrics)
    end
  end.

(** The paths the walk files under [key], in the order of the visits. *)
Definition members (fs : gmap string file) (entries : list entry) (key : string)
  : list string :=
  path <$> filter (λ e, accepted fs e = Some key) entries.

(** What [main] does, or the fatal message it ends with. *)
Inductive outcome : Type :=
| Fatal (msg : string)
| Done (st : pruning).

(** [main]: [Walk rootDir] is the sequence of entries [filepath.Walk] visits
    from [rootDir], and [iter] the order in which the groups are ranged over. *)
Definition main (args : list string) (Walk : string -> list entry)
    (iter : gmap string (list string) -> list (string * list string))
    (fs : gmap string file) : outcome :=
  if slice_len args <? 2 then Fatal "Usage: go run main.go <meg responses directory>"
  else
    let rootDir := nth 1 args "" in
    let groupedFiles := walk fs (Walk rootDir) in
    Done (prune fs (iter groupedFiles)).

End Program.

(* ===================================================================== *)
(** ** What the patterns are read against *)
(* ===================================================================== *)

Module Reading.

(** The bytes of [s] up to its first newline, or all of them. *)
Fixpoint until_newline (s : string) : string :=
  match s with
  | EmptyString => EmptyString
  | String c t => if Ascii.eqb c "010" then EmptyString else String c (until_newline t)
  end.

(** [s] with the letters A to Z in lower case. *)
Fixpoint to_lower (s : string) : string :=
  match s with
  | EmptyString => EmptyString
  | String c t => String (fold_case c) (to_lower t)
  end.

(** The number of offsets of [s] at which [sub] begins. *)
Fixpoint occurrences (sub s : string) : Z :=
  (if strings.HasPrefix s sub then 1 else 0)
  + match s with
    | EmptyString => 0
    | String _ t => occurrences sub t
    end.

(** A greedy star of a character class, followed by [k]: the longest run
    of the class after which [k] succeeds. *)
Fixpoint greedy {R : Type} (p : ascii -> bool)
    (k : Z -> string -> captures -> option R)
    (pos : Z) (s : string) (cs : captures) : option R :=
  match s with
  | String c t =>
    if p c then
      match greedy p k (pos + 1) t cs with
      | Some x => Some x
      | None => k pos s cs
      end
    else k pos s cs
  | EmptyString => k pos s cs
  end.

(** A lazy star of a character class, followed by [k]: the shortest run of
    the class after which [k] succeeds. *)
Fixpoint lazy {R : Type} (p : ascii -> bool)
    (k : Z -> string -> captures -> option R)
    (pos : Z) (s : string) (cs : captures) : option R :=
  match k pos s cs with
  | Some x => Some x
  | None =>
    match s with
    | String c t => if p c then lazy p k (pos + 1) t cs else None
    | EmptyString => None
    end
  end.

(** [s] without the prefix [l], compared byte by byte with [eq]; [None]
    when [s] does not begin with [l]. *)
Fixpoint strip_with (eq : ascii -> ascii -> bool) (l s : string) : option string :=
  match l, s with
  | EmptyString, _ => Some s
  | String _ _, EmptyString => None
  | String a p, String b t => if eq a b then strip_with eq p t else None
  end.

(** The comparison of a literal under the flag [i]. *)
Definition eq_fold (a b : ascii) : bool := Ascii.eqb (fold_case b) (fold_case a).

(** [c] is none of the bytes of [s]. *)
Fixpoint absent (c : ascii) (s : string) : bool :=
  match s with
  | EmptyString => true
  | String b t => negb (Ascii.eqb c b) && absent c t
  end.

(** The lines of [s], as [strings.Split] cuts them at the newlines. *)
Fixpoint split_lines (s : string) : list string :=
  match s with
  | EmptyString => [EmptyString]
  | String c t =>
    if Ascii.eqb c "010" then EmptyString :: split_lines t
    else match split_lines t with
         | l :: ls => String c l :: ls
         | [] => [String c EmptyString]
         end
  end.

(** The number of lines of [s] that hold a colon, read from left to right;
    [seen] tells whether the line being read has shown one. *)
Fixpoint colon_lines (seen : bool) (s : string) : Z :=
  match s with
  | EmptyString => if seen then 1 else 0
  | String c t =>
    if Ascii.eqb c "010" then (if seen then 1 else 0) + colon_lines false t
    else colon_lines (seen || Ascii.eqb c ":") t
  end.

(** What follows the first newline of [s]. *)
Fixpoint after_newline (s : string) : string :=
  match s with
  | EmptyString => EmptyString
  | String c t => if Ascii.eqb c "010" then t else after_newline t
  end.

(** [s] holds the byte [c]. *)
Fixpoint has_byte (c : ascii) (s : string) : bool :=
  match s with
  | EmptyString => false
  | String b t => Ascii.eqb b c || has_byte c t
  end.

(** Every byte of [s] is in the class [p]. *)
Fixpoint all_bytes (p : ascii -> bool) (s : string) : bool :=
  match s with
  | EmptyString => true
  | String c t => p c && all_bytes p t
  end.

(** [s] is empty or begins with a byte outside the class [p]. *)
Definition stops (p : ascii -> bool) (s : string) : bool :=
  match s with
  | EmptyString => true
  | String c _ => negb (p c)
  end.

(** The classes of [\s], of [\d] and of the dot. *)
Definition is_space (c : ascii) : bool :=
  Ascii.eqb c "009" || Ascii.eqb c "010" || Ascii.eqb c "012"
  || Ascii.eqb c "013" || Ascii.eqb c " ".

Definition is_digit (c : ascii) : bool := (0x30 <=? byte c) && (byte c <=? 0x39).

Definition not_newline (c : ascii) : bool := negb (Ascii.eqb c "010").

(** The continuation that ends a match: the end offset and the captures. *)
Definition final : Z -> string -> captures -> option (Z * captures) :=
  λ pos _ cs, Some (pos, cs).

(** A pattern made of a literal and the rest of the line as its group. *)
Definition value_after (l : string) : regex := Cat (lit l) (Group 1 (Star true dot)).

(** A literal followed by an optional question mark, which is a group. *)
Definition with_mark (l : string) : regex :=
  Cat (lit l) (Group 1 (Alt (chr "?") Eps)).

(** The width of the optional question mark after the literal [l] in [s]. *)
Definition mark (l s : string) : Z :=
  if strings.HasPrefix (drop (len l) s) "?" then 1 else 0.

(** [s] begins with one of the three markers, in any letter case. *)
Definition is_marked (s : string) : bool :=
  strings.HasPrefix (to_lower s) "pudax"
  || strings.HasPrefix (to_lower s) "dupa"
  || strings.HasPrefix (to_lower s) "injectx".

(** The width of the marker with which [s] begins. *)
Definition marker_width (s : string) : Z :=
  if strings.HasPrefix (to_lower s) "pudax" then 5
  else if strings.HasPrefix (to_lower s) "dupa" then 4 else 7.

(** A text mentions one of the three markers, in any letter case. *)
Definition mentions_marker (s : string) : Prop :=
  has_substring (to_lower s) "pudax"
  ∨ has_substring (to_lower s) "dupa"
  ∨ has_substring (to_lower s) "injectx".

(** What follows the first group of [headerRegex]: the colon and the rest
    of the line. *)
Definition colon_and_rest : regex := Cat (chr ":") (Group 2 (Star true dot)).

(** What follows the opening tag in [titleRegex]. *)
Definition title_rest : regex := Cat (Group 1 (Star false dot)) (lit_i "</title>").

(** The closing tag after the group of [titleRegex], which started at
    offset [pos0] of [s0]. *)
Definition closing (pos0 : Z) (s0 : string) : Z -> string -> captures -> option (Z * captures) :=
  λ pos' s' cs', run (lit_i "</title>") pos' s' ((1%nat, take (pos' - pos0) s0) :: cs') final.

(** What follows the version in [statusRegex]. *)
Definition after_version : regex :=
  Cat (Plus true space) (Cat (Group 1 (Plus true digit)) (Plus true space)).

End Reading.

Import Reading.

(* ===================================================================== *)
(** ** What the splitter and the counters are read against *)
(* ===================================================================== *)

Module Splitting.

(** The [k] bytes with which [s] begins are continuation bytes of a rune. *)
Fixpoint cont_prefix (k : nat) (s : string) : Prop :=
  match k with
  | O => True
  | S k' =>
    match s with
    | String c t => 0x80 ≤ byte c ∧ cont_prefix k' t
    | EmptyString => False
    end
  end.

(** The lines a line scanner delivers from [s], read byte by byte after the
    bytes [cur] of the line that is being read, and the error it ends with:
    a line of [MaxScanTokenSize] bytes or more ends the scan. *)
Fixpoint lines_within (cur s : string) : list string * option error :=
  match s with
  | EmptyString =>
    if eqb cur "" then ([], None) else ([bufio.dropCR cur], None)
  | String c t =>
    if Ascii.eqb c "010" then
      let '(ts, e) := lines_within "" t in (bufio.dropCR cur :: ts, e)
    else if bufio.MaxScanTokenSize <=? len cur + 1 then ([], Some ErrTooLong)
    else lines_within (cur +:+ String c "") t
  end.

(** The lines before the first empty line, and those after it. *)
Fixpoint before_blank (ls : list string) : list string :=
  match ls with
  | [] => []
  | l :: ls' => if eqb l "" then [] else l :: before_blank ls'
  end.

Fixpoint after_blank (ls : list string) : list string :=
  match ls with
  | [] => []
  | l :: ls' => if eqb l "" then ls' else after_blank ls'
  end.

(** The lines written to a builder, each with its newline. *)
Definition written (ls : list string) : string :=
  fold_right (λ l acc, l +:+ String "010" acc) "" ls.

(** A header line without its first marker. *)
Definition unmark (line : string) : string := strings.Replace line "< " "" 1.

(** What the splitter takes for the response: the content from the first
    angle bracket that follows a newline. *)
Definition response_of (Content : string) : string :=
  let j := strings.Index Content (String "010" "<") in
  if j <? 0 then "" else drop (j + 1) Content.

End Splitting.

Import Splitting.

Module Brackets.

(** The number of bytes before the first closing bracket of [s], when it
    comes before any newline. *)
Fixpoint closes (s : string) : option Z :=
  match s with
  | EmptyString => None
  | String c t =>
    if Ascii.eqb c ">" then Some 0
    else if Ascii.eqb c "010" then None
    else option_map (Z.add 1) (closes t)
  end.

(** The number of tags of [s], read from left to right: a tag runs from an
    opening bracket to the first closing bracket after it on the same line;
    [inside] tells whether an opening bracket is waiting for one. *)
Fixpoint count_tags (inside : bool) (s : string) : Z :=
  match s with
  | EmptyString => 0
  | String c t =>
    if inside then
      if Ascii.eqb c ">" then 1 + count_tags false t
      else if Ascii.eqb c "010" then count_tags false t
      else count_tags true t
    else if Ascii.eqb c "<" then count_tags true t else count_tags false t
  end.

End Brackets.

Import Brackets.


(* ===================================================================== *)
(** ** Sample transcripts *)
(* ===================================================================== *)

Module Samples.

Definition nl : string := String "010" "".

Definition unlines (ls : list string) : string :=
  fold_right (λ l acc, l +:+ nl +:+ acc) "" ls.

(** A transcript as meg stores it: the URL, the request with its lines
    marked by a closing angle bracket, the response headers, a blank line
    and the body. *)
Definition transcript (headers : list string) (body : string) : string :=
  unlines ["http://example.com/"; ""; "> GET / HTTP/1.1"; "> Host: example.com"; ""]
  +:+ unlines headers +:+ nl +:+ body.

Definition page : string :=
  transcript ["< HTTP/1.1 200 OK"; "< Content-Type: text/html"]
    "<html><head><title>Hello  World</title></head></html>".

(** Another page: other bytes, the same shape. *)
Definition page_again : string :=
  transcript ["< HTTP/1.1 200 OK"; "< Content-Type: text/html"]
    "<html><head><title>Howdy  Earth</title></head></html>".

Definition missing : string :=
  transcript ["< HTTP/1.1 404 Not Found"; "< Content-Type: text/plain"]
    "not found".

(** Two transcripts whose content type and redirect location differ, while
    the one followed by the other reads the same. *)
Definition component_home : string :=
  transcript ["< HTTP/1.1 302 Found"; "< Content-Type: text/x-component";
              "< Location: home"] "moved".

Definition x_component_home : string :=
  transcript ["< HTTP/1.1 302 Found"; "< Content-Type: text/x";
              "< Location: component-home"] "moved".

(** A response whose second header line does not carry the marker. *)
Definition unmarked : string :=
  transcript ["< HTTP/1.1 200 OK"; "X-Note: a < b"] "body".

(** A stand-in for [url.Parse] on references that are a bare path, without
    scheme, authority or query, and on the empty reference: such a reference
    parses to a URL with an empty host and no query parameter. *)
Definition parse_bare_path (urlStr : string) : option url.URL :=
  Some (url.mkURL "" ∅).

Definition on_disk : gmap string file :=
  list_to_map
    [("out/a", File page true true);
     ("out/b", File page_again true true);
     ("out/c", File missing true true);
     ("out/d", File page true false);
     ("out/e", File page true true);
     ("out/empty", File "" true true);
     ("out/secret", File page false true);
     ("out/m", File component_home true true);
     ("out/n", File x_component_home true true)].

Definition file_entry (p : string) : entry := Entry p false None.

Definition visited : list entry :=
  [Entry "out" true None; file_entry "out/a"; file_entry "out/b";
   file_entry "out/c"; file_entry "out/d"; file_entry "out/e";
   file_entry "out/empty"; file_entry "out/secret";
   Entry "out/gone" false (Some ENOENT)].

(** The same directory without the file that cannot be removed. *)
Definition plain : list entry :=
  [Entry "out" true None; file_entry "out/a"; file_entry "out/b";
   file_entry "out/c"; file_entry "out/e"].

(** A file of 1000005 bytes: a word of 1000000 bytes that fills the capped
    buffer, then two short words. *)
Definition long_word : string := N.iter 1000000 (String "a") " b c ".

End Samples.

(** Further cases: a line that fills the buffer of a scanner, and the
    entries of the sample directory that are left after a run. *)
Module Cases.

Definition long_line : string := N.iter 65536 (String "a") "".

Definition survivors : list entry :=
  [Entry "out" true None; Samples.file_entry "out/a"; Samples.file_entry "out/c"].

End Cases.

(* ===================================================================== *)
(** * Properties *)
(* ===================================================================== *)

(** ** The walk *)

Section Walk.

Context (url_Parse : string -> option url.URL) (fs : gmap string file).

Lemma walkFn_accepted (g : gmap string (list string)) (e : entry) :
  walkFn url_Parse fs g e =
  match accepted url_Parse fs e with
  | Some key => <[key := default [] (g !! key) ++ [path e]]> g
  | None => g
  end.
Proof.
  unfold walkFn, accepted.
  destruct (walkErr e); [done|]. destruct (isDir e); [done|].
  by destruct (computeMetrics url_Parse fs (path e)) as [m [err|]].
Qed.

Lemma members_cons (e : entry) (es : list entry) (key : string) :
  members url_Parse fs (e :: es) key =
  (if decide (accepted url_Parse fs e = Some key) then [path e] else [])
  ++ members url_Parse fs es key.
Proof. unfold members. rewrite filter_cons. by case_decide. Qed.

(** The walk appends to each group the paths it files under the group's
    key, in the order of the visits. *)
Lemma walk_from_lookup (es : list entry) (g : gmap string (list string)) (key : string) :
  default [] (fold_left (walkFn url_Parse fs) es g !! key)
  = default [] (g !! key) ++ members url_Parse fs es key.
Proof.
  revert g. induction es as [|e es IH]; intros g; simpl.
  - by rewrite app_nil_r.
  - rewrite IH, walkFn_accepted, members_cons.
    destruct (accepted url_Parse fs e) as [k|] eqn:Ha.
    + destruct (decide (k = key)) as [->|Hne].
      * rewrite lookup_insert_eq. simpl. rewrite decide_True by done.
        by rewrite <- app_assoc.
      * rewrite lookup_insert_ne by done. rewrite decide_False by congruence. done.
    + rewrite decide_False by done. done.
Qed.

Lemma walk_from_nonempty (es : list entry) (g : gmap string (list string)) :
  (∀ key files, g !! key = Some files → files ≠ []) →
  ∀ key files, fold_left (walkFn url_Parse fs) es g !! key = Some files → files ≠ [].
Proof.
  revert g. induction es as [|e es IH]; intros g Hg; simpl; [done|].
  apply IH. intros key files. rewrite walkFn_accepted.
  destruct (accepted url_Parse fs e) as [k|]; [|apply Hg].
  destruct (decide (k = key)) as [->|Hne].
  - rewrite lookup_insert_eq. intros [= <-]. by destruct (default [] (g !! key)).
  - rewrite lookup_insert_ne by done. apply Hg.
Qed.

(** A group of the walk is exactly the sequence of the paths filed under its
    key, and is never empty. *)
Lemma walk_lookup (es : list entry) (key : string) (files : list string) :
  walk url_Parse fs es !! key = Some files ↔
  files = members url_Parse fs es key ∧ files ≠ [].
Proof.
  unfold walk. split.
  - intros H. split.
    + pose proof (walk_from_lookup es ∅ key) as Hl.
      rewrite H, lookup_empty in Hl. done.
    + eapply walk_from_nonempty; [|exact H]. intros k l. by rewrite lookup_empty.
  - intros [-> Hne].
    pose proof (walk_from_lookup es ∅ key) as Hl. rewrite lookup_empty in Hl.
    simpl in Hl. destruct (fold_left _ es ∅ !! key) as [l|]; simpl in Hl.
    + by rewrite Hl.
    + by rewrite <- Hl in Hne.
Qed.

Lemma elem_of_members (es : list entry) (key p : string) :
  p ∈ members url_Parse fs es key ↔
  ∃ e, e ∈ es ∧ path e = p ∧ accepted url_Parse fs e = Some key.
Proof.
  unfold members. rewrite list_elem_of_fmap. split.
  - intros (e & -> & He). apply list_elem_of_filter in He. naive_solver.
  - intros (e & He & <- & Ha). exists e. split; [done|].
    apply list_elem_of_filter. done.
Qed.

Lemma accepted_Some (e : entry) (key : string) :
  accepted url_Parse fs e = Some key ↔
  walkErr e = None ∧ isDir e = false ∧
  ∃ m, computeMetrics url_Parse fs (path e) = (m, None) ∧ keyForMetrics m = key.
Proof.
  unfold accepted. destruct (walkErr e); [naive_solver|].
  destruct (isDir e); [naive_solver|].
  destruct (computeMetrics url_Parse fs (path e)) as [m [err|]]; naive_solver.
Qed.

End Walk.

(** ** The pruning pass *)

Section Prune.

Implicit Types (st : pruning) (fs : gmap string file) (l : list string).

Lemma removals_app (o1 o2 : list event) :
  removals (o1 ++ o2) = removals o1 ++ removals o2.
Proof. unfold removals. apply omap_app. Qed.

Lemma summary_remove_dup st dup :
  summary (remove_dup st dup) = remove_step (summary st) dup.
Proof.
  unfold remove_dup, summary, remove_step.
  destruct (os.Remove (disk st) dup) as [fs' [err|]]; simpl;
    by rewrite removals_app.
Qed.

Lemma summary_remove_dups l st :
  summary (fold_left remove_dup l st) = fold_left remove_step l (summary st).
Proof.
  revert st. induction l as [|dup l IH]; intros st; simpl; [done|].
  by rewrite IH, summary_remove_dup.
Qed.

Lemma summary_prune_group st (g : string * list string) :
  summary (prune_group st g) = fold_left remove_step (doomed [g]) (summary st).
Proof.
  destruct g as [key files]. unfold prune_group, doomed. simpl.
  rewrite app_nil_r. destruct (1 <? slice_len files); [|done].
  rewrite summary_remove_dups. f_equal.
  unfold summary. simpl. rewrite removals_app. simpl. by rewrite app_nil_r.
Qed.

Lemma doomed_cons (g : string * list string) (order : list (string * list string)) :
  doomed (g :: order) = doomed [g] ++ doomed order.
Proof. unfold doomed. simpl. by rewrite app_nil_r. Qed.

Lemma summary_prune_groups (order : list (string * list string)) st :
  summary (fold_left prune_group order st)
  = fold_left remove_step (doomed order) (summary st).
Proof.
  revert st. induction order as [|g order IH]; intros st; [done|].
  rewrite doomed_cons, fold_left_app. simpl.
  by rewrite IH, summary_prune_group.
Qed.

(** The pruning pass is a run of [os.Remove] over the doomed paths. *)
Lemma summary_prune fs (order : list (string * list string)) :
  summary (prune fs order) = fold_left remove_step (doomed order) (fs, 0, []).
Proof.
  unfold prune.
  pose proof (summary_prune_groups order (Pruning fs 0 [])) as H.
  unfold summary in *. simpl in *. rewrite removals_app. simpl.
  by rewrite app_nil_r.
Qed.

Lemma incr_small (n : Z) : 0 ≤ n < 2 ^ 63 - 1 → Int.incr n = n + 1.
Proof.
  intros H. unfold Int.incr, Int.wrap.
  rewrite Z.mod_small by lia. lia.
Qed.

Lemma remove_step_cases fs (n : Z) (rs : list (string * bool)) (dup : string) :
  (∃ f, fs !! dup = Some f ∧ removable f = true ∧
        remove_step (fs, n, rs) dup = (delete dup fs, Int.incr n, rs ++ [(dup, true)]))
  ∨ ((∀ f, fs !! dup = Some f → removable f = false) ∧
     remove_step (fs, n, rs) dup = (fs, n, rs ++ [(dup, false)])).
Proof.
  unfold remove_step, os.Remove.
  destruct (fs !! dup) as [f|] eqn:Hf.
  - destruct (removable f) eqn:Hr.
    + left. by exists f.
    + right. split; [|done]. by intros f' [= <-].
  - right. split; [|done]. by intros f' [=].
Qed.

Lemma successes_snoc (rs : list (string * bool)) (p : string) (ok : bool) :
  successes (rs ++ [(p, ok)]) = (successes rs + (if ok then 1 else 0))%nat.
Proof.
  unfold successes. rewrite filter_app, length_app. f_equal.
  by destruct ok.
Qed.

(** The removals reported are one per doomed path, in order. *)
Lemma run_reports l fs (n : Z) (rs : list (string * bool)) :
  (fold_left remove_step l (fs, n, rs)).2.*1 = rs.*1 ++ l.
Proof.
  revert fs n rs. induction l as [|dup l IH]; intros fs n rs; simpl.
  - by rewrite app_nil_r.
  - destruct (remove_step_cases fs n rs dup) as [(f & _ & _ & ->)|[_ ->]];
      rewrite IH, fmap_app, <- app_assoc; done.
Qed.

(** Files only disappear. *)
Lemma run_shrinks l fs (n : Z) (rs : list (string * bool)) (p : string) (f : file) :
  (fold_left remove_step l (fs, n, rs)).1.1 !! p = Some f → fs !! p = Some f.
Proof.
  revert fs n rs. induction l as [|dup l IH]; intros fs n rs; simpl; [done|].
  destruct (remove_step_cases fs n rs dup) as [(f' & _ & _ & ->)|[_ ->]];
    intros H%IH; [|done].
  apply lookup_delete_Some in H. tauto.
Qed.

(** A path that is not doomed is left alone. *)
Lemma run_spares l fs (n : Z) (rs : list (string * bool)) (p : string) :
  p ∉ l → (fold_left remove_step l (fs, n, rs)).1.1 !! p = fs !! p.
Proof.
  revert fs n rs. induction l as [|dup l IH]; intros fs n rs Hp; simpl; [done|].
  apply not_elem_of_cons in Hp as [Hne Hp].
  destruct (remove_step_cases fs n rs dup) as [(f' & _ & _ & ->)|[_ ->]];
    rewrite IH by done; [|done].
  by rewrite lookup_delete_ne.
Qed.

(** A doomed path whose removal is permitted is gone in the end. *)
Lemma run_removes l fs (n : Z) (rs : list (string * bool)) (p : string) :
  p ∈ l → (∀ f, fs !! p = Some f → removable f = true) →
  (fold_left remove_step l (fs, n, rs)).1.1 !! p = None.
Proof.
  revert fs n rs. induction l as [|dup l IH]; intros fs n rs Hp Hr; simpl.
  - by apply elem_of_nil in Hp.
  - destruct (decide (p = dup)) as [->|Hne].
    + apply eq_None_not_Some. intros [f Hf].
      destruct (remove_step_cases fs n rs dup) as [(f' & _ & _ & Hs)|[Hno Hs]];
        rewrite Hs in Hf; apply run_shrinks in Hf.
      * by rewrite lookup_delete_eq in Hf.
      * specialize (Hr _ Hf). specialize (Hno _ Hf). congruence.
    + apply elem_of_cons in Hp as [?|Hp]; [done|].
      destruct (remove_step_cases fs n rs dup) as [(f' & _ & _ & ->)|[_ ->]];
        apply IH; try done.
      intros f. rewrite lookup_delete_ne by done. apply Hr.
Qed.

(** Every success takes one file off the disk, and there are no more
    successes than attempts. *)
Lemma run_accounts l fs (n : Z) (rs : list (string * bool)) :
  let c := fold_left remove_step l (fs, n, rs) in
  (size c.1.1 + successes c.2 = size fs + successes rs)%nat
  ∧ (successes rs ≤ successes c.2 ≤ successes rs + length l)%nat.
Proof.
  revert fs n rs. induction l as [|dup l IH]; intros fs n rs; simpl; [lia|].
  destruct (remove_step_cases fs n rs dup) as [(f' & Hf & _ & ->)|[_ ->]].
  - specialize (IH (delete dup fs) (Int.incr n) (rs ++ [(dup, true)])).
    simpl in IH. rewrite successes_snoc in IH.
    pose proof (map_size_delete dup fs) as Hs. rewrite Hf in Hs.
    assert (size fs ≠ 0%nat).
    { intros H0. apply map_size_empty_inv in H0. by rewrite H0 in Hf. }
    lia.
  - specialize (IH fs n (rs ++ [(dup, false)])).
    simpl in IH. rewrite successes_snoc in IH. lia.
Qed.

(** The counter follows the successes, as long as it cannot overflow. *)
Lemma run_counts l fs (n : Z) (rs : list (string * bool)) :
  n = Z.of_nat (successes rs) →
  Z.of_nat (successes rs + length l) < 2 ^ 63 →
  (fold_left remove_step l (fs, n, rs)).1.2
  = Z.of_nat (successes (fold_left remove_step l (fs, n, rs)).2).
Proof.
  revert fs n rs. induction l as [|dup l IH]; intros fs n rs Hn Hb; simpl; [done|].
  simpl in Hb.
  destruct (remove_step_cases fs n rs dup) as [(f' & _ & _ & ->)|[_ ->]];
    apply IH; rewrite successes_snoc; try lia.
  rewrite incr_small; lia.
Qed.

(** The last line of the output is the total. *)
Lemma prune_total fs (order : list (string * list string)) :
  last (output (prune fs order)) = Some (Total (removed (prune fs order))).
Proof. unfold prune. simpl. by rewrite last_snoc. Qed.

End Prune.

(** ** Reading a file *)

Section Reading.

Context (url_Parse : string -> option url.URL).

Lemma take_empty (n : Z) (s : string) : 0 < n → take n s = "" → s = "".
Proof.
  intros Hn. destruct s as [|c t]; [done|]. simpl.
  destruct (n <=? 0) eqn:E; [lia|done].
Qed.

(** What a successful [computeMetrics] tells about the file: it exists, may
    be opened and is not empty; the word count was obtained by counting the
    tokens of a scanner over the bytes that follow the first 1000000, and
    that scanner ended without an error. *)
Lemma computeMetrics_ok (fs : gmap string file) (p : string) (m : FileMetrics.t) :
  computeMetrics url_Parse fs p = (m, None) →
  ∃ f, fs !! p = Some f ∧ readable f = true ∧ data f ≠ "" ∧
       FileMetrics.Words m
       = fold_left (λ w _, Int.incr w)
           (bufio.Scanner bufio.ScanWords (drop 1000000 (data f))).1 0 ∧
       (bufio.Scanner bufio.ScanWords (drop 1000000 (data f))).2 = None.
Proof.
  unfold computeMetrics, os.Open.
  destruct (fs !! p) as [f|] eqn:Hf; [|done].
  destruct (readable f) eqn:Hr; [|done].
  unfold io.ReadFull.
  set (content := take 1000000 (data f)).
  set (rest := drop 1000000 (data f)).
  intros H. exists f. split; [done|]. split; [done|].
  assert (Hne : data f ≠ "").
  { intros He. subst content. rewrite He in H. simpl in H. done. }
  split; [done|].
  destruct (bufio.Scanner bufio.ScanWords rest) as [words serr] eqn:Hs.
  destruct (SeperateContentIntoHeadersAndBody content) as [Headers Body].
  destruct (1000000 <=? len content), (0 <? len content);
    simpl in H; try done; injection H as <- ->;
    change (drop 1000000 (data f)) with rest; rewrite Hs; split; reflexivity.
Qed.

(** An empty file, or one that cannot be opened, makes [computeMetrics] fail
    before any metric is computed. *)
Lemma computeMetrics_empty (fs : gmap string file) (p : string) (f : file) :
  fs !! p = Some f → data f = "" →
  computeMetrics url_Parse fs p
  = (FileMetrics.zero, Some (if readable f then EOF else EACCES)).
Proof.
  intros Hf He. unfold computeMetrics, os.Open. rewrite Hf.
  destruct (readable f); [|done]. by rewrite He.
Qed.

End Reading.

(** ** The engine: walk, then prune *)

Section Engine.

Context (url_Parse : string -> option url.URL) (fs : gmap string file).

Implicit Types (es : list entry) (order : list (string * list string)).

Lemma members_NoDup es (key : string) :
  NoDup (path <$> es) → NoDup (members url_Parse fs es key).
Proof.
  intros Hnd. eapply sublist_NoDup; [exact Hnd|].
  unfold members. apply fmap_sublist, sublist_filter.
Qed.

(** A path is filed under one key only: the key of its metrics. *)
Lemma members_key_unique es es' (k k' p : string) :
  p ∈ members url_Parse fs es k → p ∈ members url_Parse fs es' k' → k = k'.
Proof.
  intros (e & _ & <- & Ha)%elem_of_members (e' & _ & Hp & Ha')%elem_of_members.
  apply accepted_Some in Ha as (_ & _ & m & Hm & <-).
  apply accepted_Some in Ha' as (_ & _ & m' & Hm' & <-).
  rewrite Hp in Hm'. congruence.
Qed.

Lemma members_on_disk es (key p : string) :
  p ∈ members url_Parse fs es key →
  ∃ f, fs !! p = Some f ∧ readable f = true ∧ data f ≠ "".
Proof.
  intros (e & _ & <- & Ha)%elem_of_members.
  apply accepted_Some in Ha as (_ & _ & m & Hm & _).
  apply computeMetrics_ok in Hm as (f & ? & ? & ? & _). eauto.
Qed.

Lemma elem_of_order es order (key : string) (files : list string) :
  order ≡ₚ map_to_list (walk url_Parse fs es) →
  (key, files) ∈ order ↔ walk url_Parse fs es !! key = Some files.
Proof. intros ->. apply elem_of_map_to_list. Qed.

Lemma elem_of_doomed order (p : string) :
  p ∈ doomed order ↔
  ∃ key files, (key, files) ∈ order ∧ 1 < slice_len files ∧ p ∈ List.tail files.
Proof.
  unfold doomed. rewrite list_elem_of_bind. split.
  - intros ([key files] & Hp & Hin). simpl in Hp.
    destruct (1 <? slice_len files) eqn:E.
    + exists key, files. split_and!; [done|lia|done].
    + by apply elem_of_nil in Hp.
  - intros (key & files & Hin & Hlen & Hp). exists (key, files).
    split; [|done]. simpl.
    destruct (1 <? slice_len files) eqn:E; [done|lia].
Qed.

Lemma elem_of_tail {A : Type} (x : A) (l : list A) : x ∈ List.tail l → x ∈ l.
Proof. destruct l; simpl; [done|]. intros ?. by apply elem_of_cons; right. Qed.

(** A doomed path belongs to a group of the walk. *)
Lemma doomed_grouped es order (p : string) :
  order ≡ₚ map_to_list (walk url_Parse fs es) →
  p ∈ doomed order →
  ∃ key files, walk url_Parse fs es !! key = Some files ∧ p ∈ List.tail files.
Proof.
  intros Hperm (key & files & Hin & _ & Hp)%elem_of_doomed.
  exists key, files. split; [|done]. by apply (elem_of_order es order).
Qed.

Lemma disk_prune order :
  disk (prune fs order) = (fold_left remove_step (doomed order) (fs, 0, [])).1.1.
Proof. by rewrite <- summary_prune. Qed.

(** A path that is in no group is not touched by the pruning pass. *)
Lemma ungrouped_untouched es order (p : string) :
  order ≡ₚ map_to_list (walk url_Parse fs es) →
  (∀ key files, walk url_Parse fs es !! key = Some files → p ∉ files) →
  disk (prune fs order) !! p = fs !! p.
Proof.
  intros Hperm Hfree. rewrite disk_prune. apply run_spares.
  intros (key & files & Hl & Hp)%(doomed_grouped es); [|done].
  apply (Hfree key files Hl). by apply elem_of_tail.
Qed.

(** A file on which [computeMetrics] fails is in no group. *)
Lemma failing_ungrouped es (p : string) (m : FileMetrics.t) (err : error) :
  computeMetrics url_Parse fs p = (m, Some err) →
  ∀ key files, walk url_Parse fs es !! key = Some files → p ∉ files.
Proof.
  intros Hfail key files [-> _]%walk_lookup (e & _ & <- & Ha)%elem_of_members.
  apply accepted_Some in Ha as (_ & _ & m' & Hm' & _). congruence.
Qed.

(** An entry the walk does not file leaves the groups as they are. *)
Lemma walk_skips es es' (e : entry) :
  accepted url_Parse fs e = None →
  walk url_Parse fs (es ++ e :: es') = walk url_Parse fs (es ++ es').
Proof.
  intros Ha. unfold walk. rewrite !fold_left_app. simpl.
  by rewrite walkFn_accepted, Ha.
Qed.

End Engine.

(** ** Claims about grouping and pruning *)

Section Engine_claims.

Context (url_Parse : string -> option url.URL).

Implicit Types (fs : gmap string file) (es : list entry)
  (order : list (string * list string)).

(** C1.  Two files whose metrics agree on the thirteen fields of the key get
    the same key, whatever their paths and whatever the other fields hold,
    and the walk puts both paths in the group of that key. *)
Theorem equal_metrics_same_group fs es (e1 e2 : entry) (m1 m2 : FileMetrics.t) :
  e1 ∈ es → walkErr e1 = None → isDir e1 = false →
  e2 ∈ es → walkErr e2 = None → isDir e2 = false →
  computeMetrics url_Parse fs (path e1) = (m1, None) →
  computeMetrics url_Parse fs (path e2) = (m2, None) →
  key_fields m1 = key_fields m2 →
  keyForMetrics m1 = keyForMetrics m2 ∧
  ∃ files, walk url_Parse fs es !! keyForMetrics m1 = Some files ∧
           path e1 ∈ files ∧ path e2 ∈ files.
Proof.
  intros He1 Hw1 Hd1 He2 Hw2 Hd2 Hm1 Hm2 Hk.
  assert (Hkey : keyForMetrics m1 = keyForMetrics m2).
  { unfold key_fields in Hk. unfold keyForMetrics.
    injection Hk as H1 H2 H3 H4 H5 H6 H7 H8 H9 H10 H11 H12 H13.
    by rewrite H1, H2, H3, H4, H5, H6, H7, H8, H9, H10, H11, H12, H13. }
  split; [done|].
  assert (H1 : path e1 ∈ members url_Parse fs es (keyForMetrics m1)).
  { apply elem_of_members. exists e1. split_and!; [done..|].
    apply accepted_Some. eauto 10. }
  assert (H2 : path e2 ∈ members url_Parse fs es (keyForMetrics m1)).
  { apply elem_of_members. exists e2. split_and!; [done..|].
    apply accepted_Some. rewrite Hkey. eauto 10. }
  exists (members url_Parse fs es (keyForMetrics m1)). split_and!; [|done..].
  apply walk_lookup. split; [done|]. intros Hnil. rewrite Hnil in H1.
  by apply elem_of_nil in H1.
Qed.


(** C8.  A file on which [computeMetrics] fails, because it cannot be opened
    or read, is in no group and is not touched by the pruning pass; the walk
    goes on: its result is that of the walk without the entry. *)
Theorem failing_file_is_skipped fs (e : entry) (m : FileMetrics.t) (err : error) :
  computeMetrics url_Parse fs (path e) = (m, Some err) →
  ∀ before after,
    let es := before ++ e :: after in
    (∀ key files, walk url_Parse fs es !! key = Some files → path e ∉ files) ∧
    walk url_Parse fs es = walk url_Parse fs (before ++ after) ∧
    (∀ order, order ≡ₚ map_to_list (walk url_Parse fs es) →
              disk (prune fs order) !! path e = fs !! path e).
Proof.
  intros Hfail before after es.
  assert (Hfree : ∀ key files,
             walk url_Parse fs es !! key = Some files → path e ∉ files).
  { by eapply failing_ungrouped. }
  split_and!; [done| |].
  - apply walk_skips. apply eq_None_not_Some. intros [key Ha].
    apply accepted_Some in Ha as (_ & _ & m' & Hm' & _). congruence.
  - intros order Hperm. by apply (ungrouped_untouched url_Parse fs es).
Qed.

(** C10.  An empty file makes the full read report end-of-file, which
    [computeMetrics] returns as an error before computing any metric; the
    file is in no group, whatever else the walk visits, and the pruning pass
    leaves it on disk. *)
Theorem empty_file_is_excluded fs (p : string) (f : file) :
  fs !! p = Some f → data f = "" →
  computeMetrics url_Parse fs p
  = (FileMetrics.zero, Some (if readable f then EOF else EACCES)) ∧
  ∀ es,
    (∀ key files, walk url_Parse fs es !! key = Some files → p ∉ files) ∧
    (∀ order, order ≡ₚ map_to_list (walk url_Parse fs es) →
              disk (prune fs order) !! p = Some f).
Proof.
  intros Hf He.
  pose proof (computeMetrics_empty url_Parse fs p f Hf He) as Hfail.
  split; [done|]. intros es.
  assert (Hfree : ∀ key files,
             walk url_Parse fs es !! key = Some files → p ∉ files).
  { by eapply failing_ungrouped. }
  split; [done|]. intros order Hperm.
  rewrite <- Hf. by apply (ungrouped_untouched url_Parse fs es).
Qed.

End Engine_claims.

(** C9.  The pruning pass calls [os.Remove] on every doomed path, in order,
    whether or not an earlier removal failed; the counter ends as the number
    of removals that succeeded, which is the number of files that left the
    disk, and the last line printed reports it.  The number of doomed paths
    is below 2^63, the range of the counter. *)
Theorem prune_counts_successful_removals
    (fs : gmap string file) (order : list (string * list string)) :
  Z.of_nat (length (doomed order)) < 2 ^ 63 →
  let st := prune fs order in
  (removals (output st)).*1 = doomed order ∧
  removed st = Z.of_nat (successes (removals (output st))) ∧
  (size (disk st) + successes (removals (output st)) = size fs)%nat ∧
  last (output st) = Some (Total (removed st)).
Proof.
  intros Hb st.
  pose proof (summary_prune fs order) as Hs. fold st in Hs.
  pose proof (run_reports (doomed order) fs 0 []) as H1.
  pose proof (run_accounts (doomed order) fs 0 []) as [H2 _].
  pose proof (run_counts (doomed order) fs 0 [] eq_refl Hb) as H3.
  rewrite <- Hs in H1, H2, H3. unfold summary in H1, H2, H3.
  cbn [fst snd] in H1, H2, H3. change (successes []) with 0%nat in H2.
  split_and!; [done|done|lia|apply prune_total].
Qed.

(** ** The word count *)

Section Words.

Lemma len_length (s : string) : len s = Z.of_nat (String.length s).
Proof. induction s as [|c t IH]; simpl len; simpl String.length; lia. Qed.

Lemma len_nonneg (s : string) : 0 ≤ len s.
Proof. rewrite len_length. lia. Qed.


Lemma drop_all (n : Z) (s : string) : len s ≤ n → drop n s = "".
Proof.
  revert n. induction s as [|c t IH]; intros n Hn; simpl drop; [done|].
  simpl len in Hn. pose proof (len_nonneg t).
  destruct (n <=? 0) eqn:E; [lia|]. apply IH. lia.
Qed.



(** A scanner over the empty input delivers nothing. *)
Lemma ScanWords_empty : bufio.Scanner bufio.ScanWords "" = ([], None).
Proof. reflexivity. Qed.

Lemma ScanLines_empty : bufio.Scanner bufio.ScanLines "" = ([], None).
Proof. reflexivity. Qed.


End Words.


(** ** UTF-8: an ASCII rune is a byte of its own *)

Section Utf8.

Lemma lor_lower_l (a b : Z) : 0 ≤ a → 0 ≤ b → a ≤ Z.lor a b.
Proof.
  intros Ha Hb.
  pose proof (Z.add_lor_land a b) as H1.
  pose proof (Z.add_lor_land (Z.ldiff b a) (Z.land b a)) as H2.
  rewrite Z.lor_ldiff_and in H2.
  rewrite <- Z.land_assoc, (Z.land_comm a b) in H2 || idtac.
  assert (H3 : Z.land (Z.ldiff b a) (Z.land b a) = 0).
  { apply Z.bits_inj'. intros n Hn.
    rewrite !Z.land_spec, Z.ldiff_spec, Z.bits_0.
    destruct (Z.testbit b n), (Z.testbit a n); done. }
  rewrite H3 in H2.
  assert (0 ≤ Z.ldiff b a) by (apply Z.ldiff_nonneg; lia).
  rewrite (Z.land_comm a b) in H1. lia.
Qed.

Lemma lor_lower_r (a b : Z) : 0 ≤ a → 0 ≤ b → b ≤ Z.lor a b.
Proof. intros. rewrite Z.lor_comm. by apply lor_lower_l. Qed.

Lemma byte_range (c : ascii) : 0 ≤ byte c < 256.
Proof.
  unfold byte. pose proof (N_ascii_bounded c). lia.
Qed.

Lemma byte_inj (c d : ascii) : byte c = byte d → c = d.
Proof.
  unfold byte. intros H%(inj Z.of_N).
  by rewrite <- (ascii_N_embedding c), <- (ascii_N_embedding d), H.
Qed.

Lemma land_low (x : Z) (n : Z) : 0 ≤ n → Z.land x (Z.ones n) = x mod 2 ^ n.
Proof. apply Z.land_ones. Qed.

(** What the table [first] says of a leading byte. *)
Lemma first_Lead (b sz lo hi : Z) :
  utf8.first b = utf8.Lead sz lo hi →
  (0x80 ≤ lo ∧ hi ≤ 0xBF) ∧
  ((sz = 2 ∧ 0xC2 ≤ b < 0xE0)
   ∨ (sz = 3 ∧ 0xE0 ≤ b < 0xF0 ∧ (b = 0xE0 → 0xA0 ≤ lo))
   ∨ (sz = 4 ∧ 0xF0 ≤ b < 0xF5 ∧ (b = 0xF0 → 0x90 ≤ lo))).
Proof.
  unfold utf8.first, utf8.locb, utf8.hicb.
  repeat (case_match; try done); intros [= <- <- <-]; lia.
Qed.

Lemma outside_false (lo hi b : Z) : utf8.outside lo hi b = false → lo ≤ b ≤ hi.
Proof. unfold utf8.outside. lia. Qed.

(** A rune below [RuneSelf] is decoded from one byte, which is the rune. *)
Lemma DecodeRune_ascii (s : string) (r : Z) (w : nat) :
  utf8.DecodeRuneInString s = (r, w) → r < 0x80 →
  ∃ c t, s = String c t ∧ byte c = r ∧ w = 1%nat.
Proof.
  unfold utf8.DecodeRuneInString, utf8.RuneError.
  destruct s as [|c0 t0]; [intros [= <- <-]; lia|].
  pose proof (byte_range c0) as R0.
  destruct (utf8.first (byte c0)) as [| |sz lo hi] eqn:Hfirst.
  - intros [= <- <-] _. eauto.
  - intros [= <- <-]. lia.
  - apply first_Lead in Hfirst as [[Hlo Hhi] Hsz].
    destruct (negb _); [intros [= <- <-]; lia|].
    destruct t0 as [|c1 t1]; [intros [= <- <-]; lia|].
    pose proof (byte_range c1) as R1.
    destruct (utf8.outside lo hi (byte c1)) eqn:O1; [intros [= <- <-]; lia|].
    apply outside_false in O1.
    assert (M2 : Z.land (byte c0) utf8.mask2 = byte c0 mod 2 ^ 5)
      by (apply (land_low _ 5); lia).
    assert (M3 : Z.land (byte c0) utf8.mask3 = byte c0 mod 2 ^ 4)
      by (apply (land_low _ 4); lia).
    assert (M4 : Z.land (byte c0) utf8.mask4 = byte c0 mod 2 ^ 3)
      by (apply (land_low _ 3); lia).
    assert (Mx : Z.land (byte c1) utf8.maskx = byte c1 mod 2 ^ 6)
      by (apply (land_low _ 6); lia).
    pose proof (Z.mod_pos_bound (byte c0) (2 ^ 5) ltac:(lia)).
    pose proof (Z.mod_pos_bound (byte c0) (2 ^ 4) ltac:(lia)).
    pose proof (Z.mod_pos_bound (byte c0) (2 ^ 3) ltac:(lia)).
    pose proof (Z.mod_pos_bound (byte c1) (2 ^ 6) ltac:(lia)).
    destruct (sz <=? 2) eqn:S2.
    { intros [= <- <-] Hr. exfalso.
      rewrite M2, Mx, Z.shiftl_mul_pow2 in Hr by lia.
      pose proof (lor_lower_l (byte c0 mod 2 ^ 5 * 2 ^ 6) (byte c1 mod 2 ^ 6)
                    ltac:(lia) ltac:(lia)).
      assert (byte c0 mod 2 ^ 5 = byte c0 - 0xC0); [|lia].
      symmetry. apply (Z.mod_unique_pos _ _ 6); lia. }
    destruct t1 as [|c2 t2]; [intros [= <- <-]; lia|].
    pose proof (byte_range c2) as R2.
    destruct (utf8.outside utf8.locb utf8.hicb (byte c2)) eqn:O2;
      [intros [= <- <-]; lia|].
    assert (0 ≤ Z.land (byte c2) utf8.maskx) by (apply Z.land_nonneg; lia).
    destruct (sz <=? 3) eqn:S3.
    { intros [= <- <-] Hr. exfalso.
      rewrite M3, Mx, !Z.shiftl_mul_pow2 in Hr by lia.
      pose proof (lor_lower_l
                    (Z.lor (byte c0 mod 2 ^ 4 * 2 ^ 12) (byte c1 mod 2 ^ 6 * 2 ^ 6))
                    (Z.land (byte c2) utf8.maskx)
                    ltac:(apply Z.lor_nonneg; lia) ltac:(lia)).
      pose proof (lor_lower_l (byte c0 mod 2 ^ 4 * 2 ^ 12) (byte c1 mod 2 ^ 6 * 2 ^ 6)
                    ltac:(lia) ltac:(lia)).
      pose proof (lor_lower_r (byte c0 mod 2 ^ 4 * 2 ^ 12) (byte c1 mod 2 ^ 6 * 2 ^ 6)
                    ltac:(lia) ltac:(lia)).
      assert (byte c0 mod 2 ^ 4 = byte c0 - 0xE0)
        by (symmetry; apply (Z.mod_unique_pos _ _ 14); lia).
      destruct (decide (byte c0 = 0xE0)) as [E|E]; [|lia].
      assert (byte c1 mod 2 ^ 6 = byte c1 - 0x80)
        by (symmetry; apply (Z.mod_unique_pos _ _ 2); lia).
      lia. }
    destruct t2 as [|c3 t3]; [intros [= <- <-]; lia|].
    pose proof (byte_range c3) as R3.
    destruct (utf8.outside utf8.locb utf8.hicb (byte c3)) eqn:O3;
      [intros [= <- <-]; lia|].
    assert (0 ≤ Z.land (byte c3) utf8.maskx) by (apply Z.land_nonneg; lia).
    assert (0 ≤ Z.shiftl (Z.land (byte c2) utf8.maskx) 6)
      by (apply Z.shiftl_nonneg; lia).
    intros [= <- <-] Hr. exfalso.
    rewrite M4, Mx, !(Z.shiftl_mul_pow2 (_ mod _)) in Hr by lia.
    pose proof (lor_lower_l (byte c0 mod 2 ^ 3 * 2 ^ 18) (byte c1 mod 2 ^ 6 * 2 ^ 12)
                  ltac:(lia) ltac:(lia)).
    pose proof (lor_lower_r (byte c0 mod 2 ^ 3 * 2 ^ 18) (byte c1 mod 2 ^ 6 * 2 ^ 12)
                  ltac:(lia) ltac:(lia)).
    set (hi2 := Z.lor (byte c0 mod 2 ^ 3 * 2 ^ 18) (byte c1 mod 2 ^ 6 * 2 ^ 12)) in *.
    assert (0 ≤ hi2) by lia.
    pose proof (lor_lower_l
                  (Z.lor hi2 (Z.shiftl (Z.land (byte c2) utf8.maskx) 6))
                  (Z.land (byte c3) utf8.maskx)
                  ltac:(apply Z.lor_nonneg; lia) ltac:(lia)).
    pose proof (lor_lower_l hi2 (Z.shiftl (Z.land (byte c2) utf8.maskx) 6)
                  ltac:(lia) ltac:(lia)).
    assert (byte c0 mod 2 ^ 3 = byte c0 - 0xF0)
      by (symmetry; apply (Z.mod_unique_pos _ _ 30); lia).
    destruct (decide (byte c0 = 0xF0)) as [E|E]; [|lia].
    assert (byte c1 mod 2 ^ 6 = byte c1 - 0x80)
      by (symmetry; apply (Z.mod_unique_pos _ _ 2); lia).
    lia.
Qed.

End Utf8.

(** ** The transcript splitter *)

Section Splitter.

(** When the first loop of the splitter stops at a rune, a newline byte is
    followed by the byte ['<'] in the content: either the rune just read is
    that ['<'] and the rune before it the newline, or both lie further on. *)
Lemma find_response_sound (s : string) :
  ∀ (i prev : Z) (skip : nat) (j : Z),
    (prev = 0x0A → skip = 0%nat) →
    find_response prev (utf8.range_from i skip s) = Some j →
    (skip = 0%nat ∧ prev = 0x0A ∧ ∃ t, s = String "<" t)
    ∨ ∃ pre post, s = pre +:+ String "010" (String "<" post).
Proof.
  induction s as [|c t IH]; intros i prev skip j Hskip; [done|].
  cbn [utf8.range_from]. destruct skip as [|k].
  - destruct (utf8.DecodeRuneInString (String c t)) as [r w] eqn:Hd.
    cbn [find_response].
    destruct ((prev =? 0x0A) && (r =? 0x3C)) eqn:Hb.
    + intros _. left. split; [done|]. split; [lia|].
      apply DecodeRune_ascii in Hd as (c' & t' & [= <- <-] & Hc & _); [|lia].
      exists t. f_equal. apply byte_inj. rewrite Hc.
      assert (r = 0x3C) as -> by lia. reflexivity.
    + intros Hf. apply IH in Hf as [(_ & Hr & t' & ->)|(pre & post & ->)].
      * right. exists "", t'.
        apply DecodeRune_ascii in Hd as (c' & t'' & [= <- _] & Hc & _); [|lia].
        assert (c = "010"%char) as ->; [|reflexivity].
        apply byte_inj. rewrite Hc, Hr. reflexivity.
      * right. by exists (String c pre), post.
      * intros Hr.
        apply DecodeRune_ascii in Hd as (_ & _ & _ & _ & ->); [done|lia].
  - intros Hf. apply IH in Hf as [(_ & Hp & _)|(pre & post & ->)].
    + by specialize (Hskip Hp).
    + right. by exists (String c pre), post.
    + intros Hp. by specialize (Hskip Hp).
Qed.

Lemma TrimSpace_empty : strings.TrimSpace "" = "".
Proof. reflexivity. Qed.

End Splitter.

(** C4.  A content in which no newline byte is immediately followed by the
    byte ['<'] is split into an empty header block and an empty body: the
    splitter analyses an empty region, not the whole content. *)
Theorem no_boundary_empty_split (Content : string) :
  (∀ pre post, Content ≠ pre +:+ String "010" (String "<" post)) →
  SeperateContentIntoHeadersAndBody Content = ("", "").
Proof.
  intros Hno. unfold SeperateContentIntoHeadersAndBody.
  destruct (find_response 0 (utf8.range Content)) as [j|] eqn:Hf.
  - apply find_response_sound in Hf as [(_ & ? & _)|(pre & post & ->)];
      [done| |done]. by destruct (Hno pre post).
  - rewrite ScanLines_empty. reflexivity.
Qed.

(** ** The fingerprint key *)

Section Key.










End Key.


(** ** The tag count *)

Section Tags.

Lemma HasPrefix_spec (s prefix : string) :
  strings.HasPrefix s prefix = true ↔ ∃ post, s = prefix +:+ post.
Proof.
  revert s. induction prefix as [|a p IH]; intros s.
  - split; [intros _; by exists s|by destruct s].
  - destruct s as [|b t]; cbn [strings.HasPrefix].
    + split; [done|]. by intros [post [=]].
    + destruct (Ascii.eqb_spec a b) as [->|Hne].
      * rewrite IH. split; intros [post H]; exists post.
        -- by rewrite H.
        -- by injection H.
      * split; [done|]. intros [post [= ? _]]. done.
Qed.

Lemma index_from_spec (s substr : string) (i : Z) :
  0 ≤ i → 0 ≤ strings.index_from i s substr ↔ has_substring s substr.
Proof.
  unfold has_substring. revert i. induction s as [|c t IH]; intros i Hi.
  - cbn [strings.index_from].
    destruct (strings.HasPrefix "" substr) eqn:Hp.
    + split; [intros _|done]. apply HasPrefix_spec in Hp as [post Hp].
      by exists "", post.
    + split; [lia|]. intros (pre & post & H).
      destruct pre; [|done]. simpl in H.
      assert (strings.HasPrefix "" substr = true); [|congruence].
      apply HasPrefix_spec. by exists post.
  - cbn [strings.index_from].
    destruct (strings.HasPrefix (String c t) substr) eqn:Hp.
    + split; [intros _|done]. apply HasPrefix_spec in Hp as [post Hp].
      by exists "", post.
    + rewrite IH by lia. split.
      * intros (pre & post & ->). by exists (String c pre), post.
      * intros (pre & post & H). destruct pre as [|c' pre].
        -- simpl in H.
           assert (strings.HasPrefix (String c t) substr = true); [|congruence].
           apply HasPrefix_spec. by exists post.
        -- injection H as -> ->. by exists pre, post.
Qed.

(** [strings.Contains] decides the occurrence of a substring. *)
Lemma Contains_spec (s substr : string) :
  strings.Contains s substr = true ↔ has_substring s substr.
Proof.
  unfold strings.Contains, strings.Index.
  rewrite <- (index_from_spec s substr 0) by lia. lia.
Qed.

Lemma not_Contains (s substr : string) :
  ¬ has_substring s substr → strings.Contains s substr = false.
Proof. rewrite <- Contains_spec. by destruct (strings.Contains s substr). Qed.

End Tags.

(** C6, amended.  A content type that contains [html] or [xml] gives the
    number of angle-bracket tokens of the body, whether or not it also
    contains [json]; one that contains [json] and neither [html] nor [xml]
    gives the number of quote-and-colon patterns; any other gives 0. *)
Theorem CountTags_by_content_type (contentType body : string) :
  (has_substring contentType "html" ∨ has_substring contentType "xml" →
   CountTags contentType body
   = strconv.Itoa (slice_len (FindAllString tagsRegex body)))
  ∧ (¬ has_substring contentType "html" → ¬ has_substring contentType "xml" →
     has_substring contentType "json" →
     CountTags contentType body
     = strconv.Itoa (slice_len (FindAllString jsonRegex body)))
  ∧ (¬ has_substring contentType "html" → ¬ has_substring contentType "xml" →
     ¬ has_substring contentType "json" →
     CountTags contentType body = "0").
Proof.
  unfold CountTags. split_and!.
  - intros [H|H]; apply Contains_spec in H; rewrite H; [done|].
    by rewrite orb_true_r.
  - intros Hh Hx Hj. rewrite (not_Contains _ _ Hh), (not_Contains _ _ Hx).
    apply Contains_spec in Hj. by rewrite Hj.
  - intros Hh Hx Hj.
    by rewrite (not_Contains _ _ Hh), (not_Contains _ _ Hx), (not_Contains _ _ Hj).
Qed.

(** ** The marker of a header line *)

Section Marker.

(** On a line that begins with the marker, the replacement removes it. *)
Lemma Replace_leading_marker (rest : string) :
  strings.Replace ("< " +:+ rest) "< " "" 1 = rest.
Proof. by destruct rest. Qed.

(** On a line without the marker, the replacement changes nothing. *)
Lemma Replace_no_marker (line : string) :
  ¬ has_substring line "< " → strings.Replace line "< " "" 1 = line.
Proof.
  intros Hno. cbn [strings.Replace].
  assert (H : (strings.Index line "< " <? 0) = true); [|by rewrite H].
  pose proof (index_from_spec line "< " 0 ltac:(lia)) as Hs.
  unfold strings.Index.
  destruct (Z.ltb_spec (strings.index_from 0 line "< ") 0); [done|].
  destruct Hno. apply Hs. lia.
Qed.

End Marker.

(** C7.  The code removes the first occurrence of the marker in a header
    line, wherever it stands.  That is the leading marker when the line
    begins with it, but a line that does not begin with the marker and holds
    it further on loses that inner occurrence instead of being appended
    unchanged: the second header line of [Samples.unmarked] is changed. *)
Theorem inner_marker_is_removed :
  (∀ rest, strings.Replace ("< " +:+ rest) "< " "" 1 = rest)
  ∧ strings.HasPrefix "X-Note: a < b" "< " = false
  ∧ strings.Replace "X-Note: a < b" "< " "" 1 = "X-Note: a b"
  ∧ SeperateContentIntoHeadersAndBody Samples.unmarked
    = ("HTTP/1.1 200 OK" +:+ Samples.nl +:+ "X-Note: a b", "body").
Proof.
  split; [apply Replace_leading_marker|]. by vm_compute.
Qed.

(** ** The claims on the sample transcripts *)

Section On_samples.

Import Samples.

Lemma with_no_error {A B : Type} (x : A * option B) : x.2 = None → x = (x.1, None).
Proof. destruct x as [a b]. simpl. by intros ->. Qed.

Let metrics_of (p : string) : FileMetrics.t :=
  (computeMetrics parse_bare_path on_disk p).1.

Let groups : gmap string (list string) := walk parse_bare_path on_disk visited.

(** C1 on two pages of different bytes and paths. *)
Lemma equal_metrics_same_group_witness :
  keyForMetrics (metrics_of "out/a") = keyForMetrics (metrics_of "out/b") ∧
  ∃ files, groups !! keyForMetrics (metrics_of "out/a") = Some files ∧
           "out/a" ∈ files ∧ "out/b" ∈ files.
Proof.
  apply (equal_metrics_same_group parse_bare_path on_disk visited
           (file_entry "out/a") (file_entry "out/b")
           (metrics_of "out/a") (metrics_of "out/b"));
    try (vm_compute; reflexivity);
    repeat first [apply list_elem_of_here | apply list_elem_of_further].
Defined.




(** C4 on a content that begins with an angle bracket and has no newline. *)
Lemma no_boundary_empty_split_witness :
  SeperateContentIntoHeadersAndBody "<html>hello</html>" = ("", "").
Proof.
  apply no_boundary_empty_split. intros pre post H.
  assert (Hc : strings.Contains "<html>hello</html>" (nl +:+ "<") = true).
  { apply Contains_spec. by exists pre, post. }
  vm_compute in Hc. discriminate.
Defined.


(** C8 on the file that cannot be opened, in the middle of the walk. *)
Lemma failing_file_is_skipped_witness :
  let before := [Entry "out" true None; file_entry "out/a"] in
  let after := [file_entry "out/b"] in
  let es := before ++ file_entry "out/secret" :: after in
  (∀ key files, walk parse_bare_path on_disk es !! key = Some files →
                "out/secret" ∉ files) ∧
  walk parse_bare_path on_disk es = walk parse_bare_path on_disk (before ++ after) ∧
  (∀ order, order ≡ₚ map_to_list (walk parse_bare_path on_disk es) →
            disk (prune on_disk order) !! "out/secret" = on_disk !! "out/secret").
Proof.
  apply (failing_file_is_skipped parse_bare_path on_disk (file_entry "out/secret")
           FileMetrics.zero EACCES).
  vm_compute. reflexivity.
Defined.

(** C9 on the sample directory, where the second of three removals fails. *)
Lemma prune_counts_successful_removals_witness :
  let st := prune on_disk (map_to_list groups) in
  (removals (output st)).*1 = doomed (map_to_list groups) ∧
  removed st = Z.of_nat (successes (removals (output st))) ∧
  (size (disk st) + successes (removals (output st)) = size on_disk)%nat ∧
  last (output st) = Some (Total (removed st)).
Proof.
  apply (prune_counts_successful_removals on_disk (map_to_list groups)).
  vm_compute. reflexivity.
Defined.

(** C10 on the empty file of the sample directory. *)
Lemma empty_file_is_excluded_witness :
  computeMetrics parse_bare_path on_disk "out/empty" = (FileMetrics.zero, Some EOF) ∧
  ∀ es,
    (∀ key files, walk parse_bare_path on_disk es !! key = Some files →
                  "out/empty" ∉ files) ∧
    (∀ order, order ≡ₚ map_to_list (walk parse_bare_path on_disk es) →
              disk (prune on_disk order) !! "out/empty" = Some (File "" true true)).
Proof.
  apply (empty_file_is_excluded parse_bare_path on_disk "out/empty" (File "" true true)).
  - vm_compute. reflexivity.
  - reflexivity.
Defined.

(** A file larger than the capped buffer: the word that fills the buffer is
    not counted, the two words after it are. *)
Example words_beyond_the_cap :
  computeMetrics parse_bare_path {["big" := File long_word true true]} "big"
  = (FileMetrics.set_Words 2
       (computeMetrics parse_bare_path {["small" := File "a" true true]} "small").1,
     None).
Proof. vm_compute. reflexivity. Qed.

(** The sample directory: what the run prints. *)
Example sample_run :
  output (prune on_disk (map_to_list groups))
  = [GroupLine "200-0-text/html--1--0-12-2-0-0-6-false" 4 "out/a";
     DuplicateRemoved "out/b"; CantRemove "out/d" EACCES;
     DuplicateRemoved "out/e"; Total 2].
Proof. vm_compute. reflexivity. Qed.

End On_samples.

(** C6: a content type that contains both [json] and [xml] gives the number
    of angle-bracket tokens, not the number of quote-and-colon patterns. *)
Lemma CountTags_json_and_xml :
  has_substring "application/json+xml" "json" ∧
  CountTags "application/json+xml" "<a></a>" = "2" ∧
  strconv.Itoa (slice_len (FindAllString jsonRegex "<a></a>")) = "0".
Proof.
  split; [by exists "application/", "+xml"|]. by vm_compute.
Qed.

(* ===================================================================== *)
(** * Further properties *)
(* ===================================================================== *)

(** ** Reading the patterns *)

Section Patterns.

Context {R : Type}.
Implicit Types (k : Z -> string -> captures -> option R) (p : ascii -> bool).

Lemma run_star_greedy p k (pos : Z) (s : string) (cs : captures) :
  run (Star true (Class p)) pos s cs k = greedy p k pos s cs.
Proof.
  cbn [run].
  assert (Hf : (String.length s ≤ String.length s)%nat) by lia.
  revert Hf. generalize (String.length s) at 2 3. intros fuel.
  revert pos s cs. induction fuel as [|fuel IH]; intros pos s cs Hf.
  - destruct s; [done|simpl in Hf; lia].
  - destruct s as [|c t]; [done|]. simpl in Hf. cbn [greedy].
    destruct (p c) eqn:Hp; [|done].
    replace (pos <? pos + 1) with true by lia.
    rewrite IH by lia. done.
Qed.

Lemma run_star_lazy p k (pos : Z) (s : string) (cs : captures) :
  run (Star false (Class p)) pos s cs k = lazy p k pos s cs.
Proof.
  cbn [run].
  assert (Hf : (String.length s ≤ String.length s)%nat) by lia.
  revert Hf. generalize (String.length s) at 2 3. intros fuel.
  revert pos s cs. induction fuel as [|fuel IH]; intros pos s cs Hf.
  - destruct s; [|simpl in Hf; lia]. simpl. by destruct (k pos "" cs).
  - destruct s as [|c t]; cbn [lazy].
    + by destruct (k pos "" cs).
    + simpl in Hf. destruct (k pos (String c t) cs); [done|].
      destruct (p c) eqn:Hp; [|done].
      replace (pos <? pos + 1) with true by lia.
      rewrite IH by lia. done.
Qed.

Lemma run_Cat (a b : regex) k (pos : Z) (s : string) (cs : captures) :
  run (Cat a b) pos s cs k = run a pos s cs (λ pos' s' cs', run b pos' s' cs' k).
Proof. reflexivity. Qed.

Lemma run_Alt (a b : regex) k (pos : Z) (s : string) (cs : captures) :
  run (Alt a b) pos s cs k
  = match run a pos s cs k with
    | Some x => Some x
    | None => run b pos s cs k
    end.
Proof. reflexivity. Qed.

Lemma run_Group (n : nat) (a : regex) k (pos : Z) (s : string) (cs : captures) :
  run (Group n a) pos s cs k
  = run a pos s cs (λ pos' s' cs', k pos' s' ((n, take (pos' - pos) s) :: cs')).
Proof. reflexivity. Qed.

Lemma run_Class p k (pos : Z) (s : string) (cs : captures) :
  run (Class p) pos s cs k
  = match s with
    | String c t => if p c then k (pos + 1) t cs else None
    | EmptyString => None
    end.
Proof. reflexivity. Qed.

Lemma run_lit_with (eq : ascii -> ascii -> bool) (l : string) k
    (pos : Z) (s : string) (cs : captures) :
  run (lit_with (λ c, Class (eq c)) l) pos s cs k
  = match strip_with eq l s with
    | Some rest => k (pos + len l) rest cs
    | None => None
    end.
Proof.
  revert pos s. induction l as [|a p IH]; intros pos s.
  - simpl. by rewrite Z.add_0_r.
  - destruct p as [|a' p'].
    + destruct s as [|b t]; [reflexivity|]. cbn [lit_with run strip_with].
      destruct (eq a b); reflexivity.
    + change (lit_with (λ c, Class (eq c)) (String a (String a' p')))
        with (Cat (Class (eq a)) (lit_with (λ c, Class (eq c)) (String a' p'))).
      rewrite run_Cat, run_Class. destruct s as [|b t]; [reflexivity|].
      change (strip_with eq (String a (String a' p')) (String b t))
        with (if eq a b then strip_with eq (String a' p') t else None).
      destruct (eq a b); [|reflexivity].
      rewrite IH. destruct (strip_with eq (String a' p') t); [|done].
      f_equal. change (len (String a (String a' p'))) with (1 + len (String a' p')).
      lia.
Qed.

Lemma run_lit (l : string) k (pos : Z) (s : string) (cs : captures) :
  run (lit l) pos s cs k
  = match strip_with Ascii.eqb l s with
    | Some rest => k (pos + len l) rest cs
    | None => None
    end.
Proof. apply (run_lit_with Ascii.eqb). Qed.

Lemma run_lit_i (l : string) k (pos : Z) (s : string) (cs : captures) :
  run (lit_i l) pos s cs k
  = match strip_with eq_fold l s with
    | Some rest => k (pos + len l) rest cs
    | None => None
    end.
Proof. apply (run_lit_with eq_fold). Qed.

End Patterns.

Section Strings.

Lemma drop_0 (s : string) : drop 0 s = s.
Proof. by destruct s. Qed.

Lemma drop_succ (n : Z) (c : ascii) (t : string) :
  0 ≤ n → drop (1 + n) (String c t) = drop n t.
Proof.
  intros Hn.
  change (drop (1 + n) (String c t))
    with (if 1 + n <=? 0 then String c t else drop (1 + n - 1) t).
  destruct (Z.leb_spec (1 + n) 0); [lia|]. f_equal. lia.
Qed.

Lemma strip_HasPrefix (l s : string) :
  strip_with Ascii.eqb l s
  = if strings.HasPrefix s l then Some (drop (len l) s) else None.
Proof.
  revert s. induction l as [|a p IH]; intros s.
  - cbn [strip_with]. destruct s; reflexivity.
  - destruct s as [|b t]; [reflexivity|]. cbn [strip_with strings.HasPrefix].
    destruct (Ascii.eqb a b); [|reflexivity]. rewrite IH.
    destruct (strings.HasPrefix t p); [|reflexivity].
    change (len (String a p)) with (1 + len p).
    rewrite drop_succ; [done|]. apply len_nonneg.
Qed.

Lemma index_from_shift (s l : string) (i : Z) :
  strings.index_from i s l
  = if strings.index_from 0 s l <? 0 then -1 else i + strings.index_from 0 s l.
Proof.
  revert i. induction s as [|c t IH]; intros i; cbn [strings.index_from].
  - destruct (strings.HasPrefix "" l); simpl; [lia|done].
  - destruct (strings.HasPrefix (String c t) l); simpl; [lia|].
    rewrite (IH (i + 1)), (IH (0 + 1)).
    destruct (strings.index_from 0 t l <? 0) eqn:E; [done|].
    destruct (0 + 1 + strings.index_from 0 t l <? 0) eqn:E'; lia.
Qed.

Lemma index_from_lower (s l : string) : -1 ≤ strings.index_from 0 s l.
Proof.
  induction s as [|c t IH]; cbn [strings.index_from].
  - destruct (strings.HasPrefix "" l); lia.
  - destruct (strings.HasPrefix (String c t) l); [lia|].
    rewrite index_from_shift. destruct (_ <? 0); lia.
Qed.

End Strings.


Section Header_values.


Lemma len_until_newline_nonneg (s : string) : 0 ≤ len (until_newline s).
Proof. apply len_nonneg. Qed.

Lemma take_until_newline (s : string) :
  take (len (until_newline s)) s = until_newline s.
Proof.
  induction s as [|c t IH]; [done|]. cbn [until_newline].
  destruct (Ascii.eqb c "010"); [done|].
  change (len (String c (until_newline t))) with (1 + len (until_newline t)).
  cbn [take]. pose proof (len_nonneg (until_newline t)).
  destruct (Z.leb_spec (1 + len (until_newline t)) 0); [lia|].
  f_equal. rewrite <- IH at 2. f_equal. lia.
Qed.

Lemma greedy_dot_group (n : nat) (pos0 : Z) (s0 : string)
    (pos : Z) (s : string) (cs : captures) :
  greedy (λ c, negb (Ascii.eqb c "010"))
    (λ pos' s' cs', final pos' s' ((n, take (pos' - pos0) s0) :: cs')) pos s cs
  = Some (pos + len (until_newline s),
          (n, take (pos + len (until_newline s) - pos0) s0) :: cs).
Proof.
  revert pos. induction s as [|c t IH]; intros pos.
  - simpl. by rewrite Z.add_0_r.
  - cbn [greedy until_newline]. destruct (Ascii.eqb c "010"); simpl negb; cbn iota.
    + simpl. by rewrite Z.add_0_r.
    + rewrite IH. change (len (String c (until_newline t))) with (1 + len (until_newline t)).
      by replace (pos + 1 + len (until_newline t))
        with (pos + (1 + len (until_newline t))) by lia.
Qed.

Lemma greedy_with_final (n : nat) (pos : Z) (s : string) (cs : captures) :
  option_map fst
    (greedy (λ c, negb (Ascii.eqb c "010"))
       (λ pos' s' cs', final pos' s' ((n, take (pos' - pos) s) :: cs')) pos s cs)
  = Some (pos + len (until_newline s)).
Proof. by rewrite greedy_dot_group. Qed.


Lemma match_value_after (l : string) (pos : Z) (s : string) :
  match_here (value_after l) pos s
  = match strip_with Ascii.eqb l s with
    | Some rest =>
      Some (pos + len l + len (until_newline rest), [(1%nat, until_newline rest)])
    | None => None
    end.
Proof.
  unfold match_here, value_after. rewrite run_Cat, run_lit.
  destruct (strip_with Ascii.eqb l s) as [rest|]; [|done].
  unfold dot. rewrite run_Group, run_star_greedy.
  rewrite (greedy_dot_group 1 (pos + len l) rest).
  replace (pos + len l + len (until_newline rest) - (pos + len l))
    with (len (until_newline rest)) by lia.
  by rewrite take_until_newline.
Qed.

Lemma search_value_after (l : string) (s : string) (pos : Z) :
  search (value_after l) pos s
  = let i := strings.index_from 0 s l in
    if i <? 0 then None
    else Some (pos + i,
               pos + i + len l + len (until_newline (drop (i + len l) s)),
               drop i s,
               [(1%nat, until_newline (drop (i + len l) s))]).
Proof.
  revert pos. induction s as [|c t IH]; intros pos.
  - cbn [search]. rewrite match_value_after. destruct l; [|reflexivity].
    simpl. by rewrite !Z.add_0_r.
  - cbn [search strings.index_from]. rewrite match_value_after, strip_HasPrefix.
    destruct (strings.HasPrefix (String c t) l) eqn:Hp.
    + cbn zeta. change (0 <? 0) with false. cbn iota.
      rewrite !Z.add_0_r, Z.add_0_l. by rewrite drop_0.
    + rewrite IH, (index_from_shift t l (0 + 1)). cbn zeta.
      pose proof (index_from_lower t l).
      destruct (strings.index_from 0 t l <? 0) eqn:E; [reflexivity|].
      replace (0 + 1 + strings.index_from 0 t l <? 0) with false by lia.
      replace (0 + 1 + strings.index_from 0 t l + len l)
        with (1 + (strings.index_from 0 t l + len l)) by lia.
      replace (0 + 1 + strings.index_from 0 t l)
        with (1 + strings.index_from 0 t l) by lia.
      pose proof (len_nonneg l).
      rewrite !drop_succ by lia.
      do 4 f_equal; lia.
Qed.

Lemma NumSubexp_lit_with (eq : ascii -> ascii -> bool) (l : string) :
  NumSubexp (lit_with (λ c, Class (eq c)) l) = 0%nat.
Proof.
  induction l as [|a p IH]; [done|].
  destruct p as [|a' p']; [done|].
  change (lit_with (λ c, Class (eq c)) (String a (String a' p')))
    with (Cat (Class (eq a)) (lit_with (λ c, Class (eq c)) (String a' p'))).
  cbn [NumSubexp]. by rewrite IH.
Qed.

Lemma submatch_value_after (l s : string) :
  let matches := FindStringSubmatch (value_after l) s in
  (if 0 <? slice_len matches then nth 1 matches "" else "")
  = let i := strings.Index s l in
    if i <? 0 then "" else until_newline (drop (i + len l) s).
Proof.
  unfold FindStringSubmatch, strings.Index. rewrite search_value_after. cbn zeta.
  destruct (strings.index_from 0 s l <? 0); [reflexivity|].
  unfold value_after. cbn [NumSubexp].
  rewrite (NumSubexp_lit_with Ascii.eqb). reflexivity.
Qed.

End Header_values.

(** X3.  The content type is the rest of the line after the first occurrence of
    the text [Content-Type: ], wherever on a line and in exactly this case
    it stands; without an occurrence it is empty. *)
Theorem GetContentType_first_occurrence (headers : string) :
  GetContentType headers
  = let i := strings.Index headers "Content-Type: " in
    if i <? 0 then "" else until_newline (drop (i + len "Content-Type: ") headers).
Proof. apply (submatch_value_after "Content-Type: "). Qed.

(** X4.  The redirect location is the rest of the line after the first
    occurrence of the text [Location: ], also when that is the end of a
    longer header name such as [Content-Location: ]; without an occurrence
    it is empty. *)
Theorem GetRedirectLocation_first_occurrence (headers : string) :
  GetRedirectLocation headers
  = let i := strings.Index headers "Location: " in
    if i <? 0 then "" else until_newline (drop (i + len "Location: ") headers).
Proof. apply (submatch_value_after "Location: "). Qed.

Section Counting.

(** A pattern that matches exactly where the literal [l] begins, and ends
    [q s] bytes after it. *)
Context (a : regex) (l : string) (q : string -> Z) (cs : Z -> string -> captures).
Hypothesis match_a : ∀ pos s,
  match_here a pos s
  = if strings.HasPrefix s l then Some (pos + len l + q s, cs pos s) else None.
Hypothesis l_nonempty : 0 < len l.
Hypothesis q_nonneg : ∀ s, 0 ≤ q s.
(** No occurrence of [l] begins inside a match. *)
Hypothesis no_overlap : ∀ c t pre rest,
  strings.HasPrefix (String c t) l = true →
  t = pre +:+ rest → len pre < len l + q (String c t) - 1 →
  strings.HasPrefix rest l = false.

Lemma all_from_occurrences (s : string) :
  ∀ (pos skip prev : Z),
    (∀ pre rest, s = pre +:+ rest → len pre < skip →
                 strings.HasPrefix rest l = false) →
    slice_len (all_from a pos skip prev s) = occurrences l s.
Proof.
  induction s as [|c t IH]; intros pos skip prev Hskip.
  - cbn [all_from occurrences]. rewrite match_a.
    assert (strings.HasPrefix "" l = false) as -> by (destruct l; [simpl in *; lia|done]).
    by destruct (0 <? skip).
  - cbn [all_from occurrences]. rewrite match_a.
    destruct (Z.ltb_spec 0 skip) as [Hpos|Hzero].
    + rewrite (Hskip "" (String c t)) by (simpl; done || lia).
      rewrite IH; [lia|].
      intros pre rest -> Hlen. apply (Hskip (String c pre) rest); [done|].
      change (len (String c pre)) with (1 + len pre). lia.
    + destruct (strings.HasPrefix (String c t) l) eqn:Hp.
      * pose proof (q_nonneg (String c t)).
        destruct (Z.eqb_spec (pos + len l + q (String c t)) pos) as [?|_]; [lia|].
        unfold slice_len. cbn [length]. rewrite Nat2Z.inj_succ.
        fold (slice_len (all_from a (pos + 1)
                (pos + len l + q (String c t) - pos - 1)
                (pos + len l + q (String c t)) t)).
        rewrite IH; [lia|].
        intros pre rest -> Hlen. apply (no_overlap c _ pre rest Hp eq_refl). lia.
      * rewrite IH; [lia|]. intros pre rest _ Hlen.
        pose proof (len_nonneg pre). lia.
Qed.

Lemma FindAllString_occurrences (s : string) :
  slice_len (FindAllString a s) = occurrences l s.
Proof.
  apply all_from_occurrences. intros pre rest _ Hlen.
  pose proof (len_nonneg pre). lia.
Qed.

End Counting.

Section References.



Lemma HasPrefix_nil (s : string) : strings.HasPrefix s "" = true.
Proof. by destruct s. Qed.

Lemma match_with_mark (l : string) (pos : Z) (s : string) :
  match_here (with_mark l) pos s
  = if strings.HasPrefix s l
    then Some (pos + len l + mark l s,
               [(1%nat, take (mark l s) (drop (len l) s))])
    else None.
Proof.
  unfold match_here, with_mark, mark. rewrite run_Cat, run_lit, strip_HasPrefix.
  destruct (strings.HasPrefix s l); [|done].
  rewrite run_Group, run_Alt. unfold chr. rewrite run_Class.
  destruct (drop (len l) s) as [|b t]; [|cbn [strings.HasPrefix]].
  - simpl. by rewrite Z.add_0_r.
  - destruct (Ascii.eqb "?" b); cbn [run].
    + replace (pos + len l + 1 - (pos + len l)) with 1 by lia.
      by rewrite HasPrefix_nil.
    + rewrite Z.add_0_r. replace (pos + len l - (pos + len l)) with 0 by lia.
      reflexivity.
Qed.

Lemma no_overlap_with_mark (d : ascii) (l0 l' u pre rest : string) :
  absent d l' = true → d ≠ "?"%char →
  strings.HasPrefix u l' = true →
  u = pre +:+ rest →
  len pre < len l' + (if strings.HasPrefix (drop (len l') u) "?" then 1 else 0) →
  strings.HasPrefix rest (String d l0) = false.
Proof.
  intros Habs Hd. revert u pre. induction l' as [|x l'' IH]; intros u pre Hp -> Hlen.
  - change (len "") with 0 in Hlen. rewrite drop_0 in Hlen.
    pose proof (len_nonneg pre).
    destruct pre as [|y pre']; [|change (len (String y pre')) with (1 + len pre') in *;
      pose proof (len_nonneg pre'); destruct (strings.HasPrefix _ "?"); lia].
    change ("" +:+ rest) with rest in *. destruct rest as [|b r]; [done|].
    cbn [strings.HasPrefix] in *.
    destruct (Ascii.eqb_spec "?" b) as [<-|?]; cbn iota in Hlen; [|lia].
    destruct (Ascii.eqb_spec d "?"); done.
  - cbn [absent] in Habs. apply andb_prop in Habs as [Hx Habs].
    destruct pre as [|y pre'].
    + change ("" +:+ rest) with rest in *. destruct rest as [|b r]; [done|].
      cbn [strings.HasPrefix] in *.
      destruct (Ascii.eqb_spec x b) as [->|]; [|done].
      destruct (Ascii.eqb_spec d b) as [->|]; [|done].
      done.
    + change (String y pre' +:+ rest) with (String y (pre' +:+ rest)) in *.
      cbn [strings.HasPrefix] in Hp. destruct (Ascii.eqb x y); [|done].
      apply (IH Habs (pre' +:+ rest) pre' Hp eq_refl).
      change (len (String x l'')) with (1 + len l'') in Hlen.
      change (len (String y pre')) with (1 + len pre') in Hlen.
      rewrite drop_succ in Hlen by apply len_nonneg. lia.
Qed.

Lemma count_with_mark (d : ascii) (l' s : string) :
  absent d l' = true → d ≠ "?"%char →
  slice_len (FindAllString (with_mark (String d l')) s) = occurrences (String d l') s.
Proof.
  intros Habs Hd.
  apply (FindAllString_occurrences (with_mark (String d l')) (String d l')
           (mark (String d l'))
           (λ _ s, [(1%nat, take (mark (String d l') s) (drop (len (String d l')) s))])).
  - intros pos s'. apply match_with_mark.
  - change (len (String d l')) with (1 + len l'). pose proof (len_nonneg l'). lia.
  - intros s'. unfold mark. destruct (strings.HasPrefix _ "?"); lia.
  - intros c t pre rest Hp -> Hlen.
    cbn [strings.HasPrefix] in Hp. destruct (Ascii.eqb d c); [|done].
    apply (no_overlap_with_mark d l' l' (pre +:+ rest) pre rest Habs Hd Hp eq_refl).
    unfold mark in Hlen.
    change (len (String d l')) with (1 + len l') in Hlen.
    rewrite drop_succ in Hlen by apply len_nonneg. lia.
Qed.

End References.

(** X6.  The CSS count is the number of places of the body where the text
    [.css] begins; a question mark after it changes nothing. *)
Theorem CountCssFiles_occurrences (body : string) :
  CountCssFiles body = strconv.Itoa (occurrences ".css" body).
Proof.
  unfold CountCssFiles. f_equal. by apply (count_with_mark "." "css").
Qed.

Lemma occurrences_longer (l more s : string) :
  occurrences (l +:+ more) s ≤ occurrences l s.
Proof.
  assert (Hp : ∀ s, strings.HasPrefix s (l +:+ more) = true →
                    strings.HasPrefix s l = true).
  { clear s. induction l as [|a p IH]; intros s; [by destruct s|].
    destruct s as [|b t]; [done|]. simpl. destruct (Ascii.eqb a b); [apply IH|done]. }
  induction s as [|c t IH]; cbn [occurrences].
  - specialize (Hp ""). destruct (strings.HasPrefix "" (l +:+ more)); [|destruct (strings.HasPrefix "" l); lia].
    by rewrite Hp.
  - specialize (Hp (String c t)).
    destruct (strings.HasPrefix (String c t) (l +:+ more)).
    + rewrite Hp by done. lia.
    + destruct (strings.HasPrefix (String c t) l); lia.
Qed.

(** X7.  The JS count is the number of places of the body where the text [.js]
    begins, so that every [.json] is counted as well. *)
Theorem CountJsFiles_occurrences (body : string) :
  CountJsFiles body = strconv.Itoa (occurrences ".js" body)
  ∧ occurrences ".json" body ≤ occurrences ".js" body.
Proof.
  split; [|apply (occurrences_longer ".js" "on")].
  unfold CountJsFiles. f_equal. by apply (count_with_mark "." "js").
Qed.

Section Presence.

(** A pattern whose success at the front of a text depends on the text
    alone, and that matches at least one byte. *)
Context (a : regex) (hit : string -> bool) (w : string -> Z)
  (cs : Z -> string -> captures).
Hypothesis match_a : ∀ pos s,
  match_here a pos s = if hit s then Some (pos + w s, cs pos s) else None.
Hypothesis w_pos : ∀ s, 0 < w s.

Lemma all_from_found (s : string) :
  ∀ pos prev,
    (0 <? slice_len (all_from a pos 0 prev s)) = true ↔
    ∃ pre rest, s = pre +:+ rest ∧ hit rest = true.
Proof.
  induction s as [|c t IH]; intros pos prev.
  - cbn [all_from]. change (0 <? 0) with false. cbn iota. rewrite match_a.
    destruct (hit "") eqn:Hh.
    + pose proof (w_pos "").
      destruct (Z.eqb_spec (pos + w "") pos); [lia|].
      split; [intros _; by exists "", ""|done].
    + split; [done|]. intros (pre & rest & H & Hr).
      destruct pre; [|done]. change ("" +:+ rest) with rest in H.
      subst rest. congruence.
  - cbn [all_from]. change (0 <? 0) with false. cbn iota. rewrite match_a.
    destruct (hit (String c t)) eqn:Hh.
    + pose proof (w_pos (String c t)).
      destruct (Z.eqb_spec (pos + w (String c t)) pos); [lia|].
      split; [intros _; by exists "", (String c t)|].
      intros _. apply Z.ltb_lt. unfold slice_len. cbn [length]. lia.
    + rewrite IH. split.
      * intros (pre & rest & -> & Hr). by exists (String c pre), rest.
      * intros (pre & rest & H & Hr). destruct pre as [|c' pre'].
        -- change ("" +:+ rest) with rest in H. subst rest. congruence.
        -- injection H as -> ->. by exists pre', rest.
Qed.

End Presence.

Section Markers.

Lemma eqb_fold (a b : ascii) :
  eq_fold a b = Ascii.eqb (fold_case a) (fold_case b).
Proof. unfold eq_fold. apply Ascii.eqb_sym. Qed.

Lemma strip_fold (l s : string) :
  is_Some (strip_with eq_fold l s) ↔
  strings.HasPrefix (to_lower s) (to_lower l) = true.
Proof.
  revert s. induction l as [|a p IH]; intros s.
  - cbn [strip_with to_lower]. rewrite HasPrefix_nil. split; [done|by eexists].
  - destruct s as [|b t]; cbn [strip_with to_lower strings.HasPrefix].
    + split; [by intros [? [=]]|done].
    + rewrite eqb_fold. destruct (Ascii.eqb (fold_case a) (fold_case b)); [apply IH|].
      split; [by intros [? [=]]|done].
Qed.

Lemma to_lower_app (x y : string) : to_lower (x +:+ y) = to_lower x +:+ to_lower y.
Proof. induction x as [|c x IH]; [done|]. simpl. by rewrite IH. Qed.

Lemma to_lower_app_inv (s x y : string) :
  to_lower s = x +:+ y → ∃ u v, s = u +:+ v ∧ to_lower u = x ∧ to_lower v = y.
Proof.
  revert s. induction x as [|c x IH]; intros s H.
  - by exists "", s.
  - destruct s as [|b t]; [done|]. simpl in H. injection H as Hc H.
    apply IH in H as (u & v & -> & <- & <-).
    exists (String b u), v. by rewrite <- Hc.
Qed.

(** A text holds [marker], which is in lower case, in some letter case. *)
Lemma somewhere_fold (s marker : string) :
  (∃ pre rest, s = pre +:+ rest ∧
               strings.HasPrefix (to_lower rest) marker = true) ↔
  has_substring (to_lower s) marker.
Proof.
  unfold has_substring. split.
  - intros (pre & rest & -> & [post Hp]%HasPrefix_spec).
    exists (to_lower pre), post. by rewrite to_lower_app, Hp.
  - intros (pre & post & H). apply to_lower_app_inv in H as (u & v & -> & <- & Hv).
    exists u, v. split; [done|]. apply HasPrefix_spec. by exists post.
Qed.



Lemma match_interestingContent (pos : Z) (s : string) :
  match_here interestingContent pos s
  = if is_marked s
    then Some (pos + marker_width s, [(1%nat, take (marker_width s) s)])
    else None.
Proof.
  unfold match_here, interestingContent, is_marked, marker_width.
  rewrite run_Group, !run_Alt, !run_lit_i.
  pose proof (strip_fold "PUDAX" s) as H1.
  pose proof (strip_fold "DUPA" s) as H2.
  pose proof (strip_fold "INJECTX" s) as H3.
  change (to_lower "PUDAX") with "pudax" in H1.
  change (to_lower "DUPA") with "dupa" in H2.
  change (to_lower "INJECTX") with "injectx" in H3.
  destruct (strip_with eq_fold "PUDAX" s) as [r1|].
  { rewrite (proj1 H1) by eauto. cbn [orb].
    by replace (pos + len "PUDAX" - pos) with 5 by (simpl; lia). }
  destruct (strings.HasPrefix (to_lower s) "pudax") eqn:E1.
  { by destruct (proj2 H1 eq_refl). }
  destruct (strip_with eq_fold "DUPA" s) as [r2|].
  { rewrite (proj1 H2) by eauto. cbn [orb].
    by replace (pos + len "DUPA" - pos) with 4 by (simpl; lia). }
  destruct (strings.HasPrefix (to_lower s) "dupa") eqn:E2.
  { by destruct (proj2 H2 eq_refl). }
  destruct (strip_with eq_fold "INJECTX" s) as [r3|].
  { rewrite (proj1 H3) by eauto. cbn [orb].
    by replace (pos + len "INJECTX" - pos) with 7 by (simpl; lia). }
  destruct (strings.HasPrefix (to_lower s) "injectx") eqn:E3.
  { by destruct (proj2 H3 eq_refl). }
  reflexivity.
Qed.


Lemma found_interesting (s : string) :
  (0 <? slice_len (FindAllString interestingContent s)) = true ↔ mentions_marker s.
Proof.
  unfold FindAllString, mentions_marker.
  rewrite (all_from_found interestingContent is_marked marker_width
             (λ _ s, [(1%nat, take (marker_width s) s)])).
  - rewrite <- !somewhere_fold. unfold is_marked. split.
    + intros (pre & rest & -> & H).
      apply orb_prop in H as [H|H]; [apply orb_prop in H as [H|H]|]; eauto 10.
    + intros [(pre & rest & -> & H)|[(pre & rest & -> & H)|(pre & rest & -> & H)]];
        exists pre, rest; rewrite H; split; try done;
        by rewrite ?orb_true_r.
  - apply match_interestingContent.
  - intros s'. unfold marker_width. repeat case_match; lia.
Qed.

End Markers.

(** X5.  The flag is set exactly when the headers or the body mention one of the
    markers PUDAX, DUPA and INJECTX, in any letter case. *)
Theorem IsInterestingContent_iff (headers body : string) :
  IsInterestingContent headers body = true ↔
  mentions_marker headers ∨ mentions_marker body.
Proof.
  unfold IsInterestingContent. rewrite orb_true_iff.
  by rewrite !found_interesting.
Qed.

Section Header_lines.

Lemma Contains_byte (s : string) (c : ascii) :
  strings.Contains s (String c "") = has_byte c s.
Proof.
  unfold strings.Contains, strings.Index.
  induction s as [|b t IH]; [reflexivity|].
  cbn [strings.index_from strings.HasPrefix has_byte].
  rewrite HasPrefix_nil, Ascii.eqb_sym.
  destruct (Ascii.eqb b c); [reflexivity|]. cbn [orb]. rewrite <- IH.
  rewrite (index_from_shift t _ (0 + 1)).
  destruct (Z.ltb_spec (strings.index_from 0 t (String c "")) 0).
  - symmetry. apply Z.leb_gt. lia.
  - transitivity true; [apply Z.leb_le; lia|symmetry; apply Z.leb_le; lia].
Qed.

(** The lines with a colon, by the first line and the rest. *)
Lemma colon_lines_first (seen : bool) (s : string) :
  colon_lines seen s
  = (if seen || has_byte ":" (until_newline s) then 1 else 0)
    + colon_lines false (after_newline s).
Proof.
  revert seen. induction s as [|c t IH]; intros seen.
  - simpl. rewrite orb_false_r. lia.
  - cbn [colon_lines until_newline after_newline].
    destruct (Ascii.eqb c "010").
    + simpl. by rewrite orb_false_r.
    + rewrite IH. cbn [has_byte]. by rewrite orb_assoc.
Qed.

Lemma split_lines_nonempty (s : string) : split_lines s ≠ [].
Proof.
  induction s as [|c t IH]; [done|]. cbn [split_lines].
  destruct (Ascii.eqb c "010"); [done|]. by destruct (split_lines t).
Qed.

Lemma colon_lines_split (seen : bool) (s : string) :
  colon_lines seen s
  = match split_lines s with
    | l :: ls =>
      (if seen || has_byte ":" l then 1 else 0)
      + slice_len (filter (λ l, has_byte ":" l = true) ls)
    | [] => 0
    end.
Proof.
  revert seen. induction s as [|c t IH]; intros seen.
  - simpl. rewrite orb_false_r. unfold slice_len. simpl. lia.
  - cbn [colon_lines split_lines]. destruct (Ascii.eqb c "010").
    + rewrite IH. rewrite orb_false_r.
      destruct (split_lines t) as [|l ls]; [unfold slice_len; simpl; lia|].
      rewrite filter_cons. cbn [orb].
      destruct (has_byte ":" l) eqn:E.
      * rewrite decide_True by done. unfold slice_len. cbn [length]. lia.
      * rewrite decide_False by done. lia.
    + rewrite IH. pose proof (split_lines_nonempty t).
      destruct (split_lines t) as [|l ls]; [done|].
      cbn [has_byte]. by rewrite orb_assoc.
Qed.


Lemma run_colon_and_rest (pos : Z) (s : string) (cs : captures) :
  option_map fst (run colon_and_rest pos s cs final)
  = match s with
    | String c t =>
      if Ascii.eqb ":" c then Some (pos + 1 + len (until_newline t)) else None
    | EmptyString => None
    end.
Proof.
  unfold colon_and_rest, chr. rewrite run_Cat, run_Class.
  destruct s as [|c t]; [done|]. destruct (Ascii.eqb ":" c); [|done].
  unfold dot. rewrite run_Group, run_star_greedy.
  by rewrite (greedy_with_final 2 (pos + 1) t).
Qed.

Lemma greedy_then_colon (pos0 : Z) (s0 : string) (s : string) :
  ∀ pos cs,
    option_map fst
      (greedy (λ c, negb (Ascii.eqb c "010"))
         (λ pos' s' cs',
            run colon_and_rest pos' s' ((1%nat, take (pos' - pos0) s0) :: cs') final)
         pos s cs)
    = if has_byte ":" (until_newline s)
      then Some (pos + len (until_newline s)) else None.
Proof.
  induction s as [|c t IH]; intros pos cs.
  - cbn [greedy until_newline has_byte]. by rewrite run_colon_and_rest.
  - cbn [greedy until_newline]. destruct (Ascii.eqb_spec c "010") as [->|Hc].
    + cbn [negb has_byte]. by rewrite run_colon_and_rest.
    + cbn [negb has_byte]. specialize (IH (pos + 1) cs).
      change (len (String c (until_newline t))) with (1 + len (until_newline t)).
      destruct (greedy _ _ (pos + 1) t cs) as [x|].
      * destruct (has_byte ":" (until_newline t)); [|done].
        rewrite orb_true_r. simpl in IH |- *. injection IH as ->. f_equal. lia.
      * destruct (has_byte ":" (until_newline t)); [done|].
        rewrite orb_false_r, run_colon_and_rest, Ascii.eqb_sym.
        destruct (Ascii.eqb c ":"); [|done]. f_equal. lia.
Qed.

Lemma match_headerRegex (pos : Z) (s : string) :
  option_map fst (match_here headerRegex pos s)
  = if has_byte ":" (until_newline s)
    then Some (pos + len (until_newline s)) else None.
Proof.
  unfold match_here, headerRegex. cbn [cat].
  fold colon_and_rest. rewrite run_Cat, run_Group. unfold dot.
  rewrite run_star_greedy. apply greedy_then_colon.
Qed.

End Header_lines.

Section Header_count.

Lemma until_newline_cons (c : ascii) (t : string) :
  c ≠ "010"%char → until_newline (String c t) = String c (until_newline t).
Proof. intros Hc. cbn [until_newline]. by destruct (Ascii.eqb_spec c "010"). Qed.

(** From the start of a line, or from anywhere without a pending match, the
    matches are the lines with a colon; inside a match that ends with the
    line, they are those of the lines that follow. *)
Lemma all_from_headerRegex (s : string) :
  ∀ pos prev,
    slice_len (all_from headerRegex pos 0 prev s) = colon_lines false s
    ∧ slice_len (all_from headerRegex pos (len (until_newline s)) prev s)
      = colon_lines false (after_newline s).
Proof.
  induction s as [|c t IH]; intros pos prev.
  - cbn [all_from until_newline len after_newline colon_lines].
    change (0 <? 0) with false. cbn iota.
    pose proof (match_headerRegex pos "") as Hm.
    change (until_newline "") with "" in Hm. cbn [has_byte] in Hm.
    destruct (match_here headerRegex pos "") as [[e cs]|]; [done|].
    split; reflexivity.
  - assert (HA : slice_len (all_from headerRegex pos 0 prev (String c t))
                 = colon_lines false (String c t)).
    { cbn [all_from]. change (0 <? 0) with false. cbn iota.
      pose proof (match_headerRegex pos (String c t)) as Hm.
      rewrite colon_lines_first. cbn [orb].
      destruct (has_byte ":" (until_newline (String c t))) eqn:Hc.
      - destruct (match_here headerRegex pos (String c t)) as [[e cs]|]; [|done].
        cbn [option_map fst] in Hm. injection Hm as ->.
        destruct (Ascii.eqb_spec c "010") as [->|Hne]; [done|].
        change (len (String c (until_newline t))) with (1 + len (until_newline t)).
        pose proof (len_nonneg (until_newline t)).
        destruct (Z.eqb_spec (pos + (1 + len (until_newline t))) pos); [lia|].
        unfold slice_len. cbn [length]. rewrite Nat2Z.inj_succ.
        replace (pos + (1 + len (until_newline t)) - pos - 1)
          with (len (until_newline t)) by lia.
        destruct (IH (pos + 1) (pos + (1 + len (until_newline t)))) as [_ HB].
        unfold slice_len in HB. rewrite HB.
        cbn [after_newline]. destruct (Ascii.eqb_spec c "010"); [done|]. lia.
      - destruct (match_here headerRegex pos (String c t)) as [[e cs]|]; [done|].
        destruct (IH (pos + 1) prev) as [HA _]. rewrite HA.
        cbn [until_newline has_byte after_newline] in *.
        destruct (Ascii.eqb_spec c "010") as [->|Hne]; [lia|].
        cbn [has_byte] in Hc. apply orb_false_elim in Hc as [_ Hc].
        rewrite colon_lines_first, Hc. cbn [orb]. lia. }
    split; [exact HA|].
    destruct (Ascii.eqb_spec c "010") as [->|Hne].
    + cbn [until_newline after_newline len]. cbn [Ascii.eqb Bool.eqb].
      cbn [all_from]. change (0 <? 0) with false. cbn iota.
      pose proof (match_headerRegex pos (String "010" t)) as Hm.
      change (until_newline (String "010" t)) with "" in Hm. cbn [has_byte] in Hm.
      destruct (match_here headerRegex pos (String "010" t)) as [[e cs]|]; [done|].
      change (0 <? len "") with false. cbn iota.
      by destruct (IH (pos + 1) prev) as [-> _].
    + rewrite until_newline_cons by done.
      change (len (String c (until_newline t))) with (1 + len (until_newline t)).
      pose proof (len_nonneg (until_newline t)).
      cbn [all_from]. destruct (Z.ltb_spec 0 (1 + len (until_newline t))); [|lia].
      replace (1 + len (until_newline t) - 1) with (len (until_newline t)) by lia.
      destruct (IH (pos + 1) prev) as [_ ->].
      cbn [after_newline]. by destruct (Ascii.eqb_spec c "010").
Qed.

End Header_count.

(** X10.  The header count is the number of lines of the header block that hold a
    colon; a status line, which holds none, is not counted. *)
Theorem CountHeaders_lines_with_colon (headerString : string) :
  CountHeaders headerString
  = strconv.Itoa
      (slice_len (filter (λ l, strings.Contains l ":" = true)
                         (split_lines headerString))).
Proof.
  unfold CountHeaders, FindAllString. f_equal.
  destruct (all_from_headerRegex headerString 0 (-1)) as [-> _].
  rewrite colon_lines_split. pose proof (split_lines_nonempty headerString).
  destruct (split_lines headerString) as [|l ls]; [done|].
  rewrite filter_cons. rewrite Contains_byte. cbn [orb].
  assert (Hf : filter (λ l, strings.Contains l ":" = true) ls
               = filter (λ l, has_byte ":" l = true) ls).
  { apply list_filter_iff. intros x. by rewrite Contains_byte. }
  rewrite Hf. destruct (has_byte ":" l) eqn:E.
  - rewrite decide_True by done. unfold slice_len. cbn [length]. lia.
  - rewrite decide_False by done. lia.
Qed.

Section Searching.

Context (a : regex).

Lemma search_first_hit (pre rest : string) (pos e : Z) (cs : captures) :
  (∀ u v, pre = u +:+ v → v ≠ "" →
          match_here a (pos + len u) (v +:+ rest) = None) →
  match_here a (pos + len pre) rest = Some (e, cs) →
  search a pos (pre +:+ rest) = Some (pos + len pre, e, rest, cs).
Proof.
  revert pos. induction pre as [|c pre IH]; intros pos Hnone Hhit.
  - change ("" +:+ rest) with rest. change (len "") with 0 in *.
    rewrite Z.add_0_r in *. destruct rest; cbn [search]; by rewrite Hhit.
  - change (String c pre +:+ rest) with (String c (pre +:+ rest)).
    cbn [search]. pose proof (Hnone "" (String c pre) eq_refl) as H0.
    change (len "") with 0 in H0. rewrite Z.add_0_r in H0.
    change (String c pre +:+ rest) with (String c (pre +:+ rest)) in H0.
    rewrite H0 by done.
    change (len (String c pre)) with (1 + len pre) in *.
    rewrite (IH (pos + 1)).
    + by replace (pos + 1 + len pre) with (pos + (1 + len pre)) by lia.
    + intros u v -> Hv. specialize (Hnone (String c u) v eq_refl Hv).
      change (len (String c u)) with (1 + len u) in Hnone.
      by replace (pos + 1 + len u) with (pos + (1 + len u)) by lia.
    + by replace (pos + 1 + len pre) with (pos + (1 + len pre)) by lia.
Qed.

Lemma search_none (s : string) (pos : Z) :
  (∀ u v, s = u +:+ v → match_here a (pos + len u) v = None) →
  search a pos s = None.
Proof.
  revert pos. induction s as [|c t IH]; intros pos Hnone.
  - cbn [search]. pose proof (Hnone "" "" eq_refl) as H0.
    change (len "") with 0 in H0. rewrite Z.add_0_r in H0. by rewrite H0.
  - cbn [search]. pose proof (Hnone "" (String c t) eq_refl) as H0.
    change (len "") with 0 in H0. rewrite Z.add_0_r in H0. rewrite H0.
    apply IH. intros u v ->. specialize (Hnone (String c u) v eq_refl).
    change (len (String c u)) with (1 + len u) in Hnone.
    by replace (pos + 1 + len u) with (pos + (1 + len u)) by lia.
Qed.

End Searching.

Section First_index.

(** Where [Index] finds the first occurrence, no earlier one begins. *)
Lemma index_from_first (l : string) (pre rest : string) :
  strings.index_from 0 (pre +:+ rest) l = len pre →
  strings.HasPrefix rest l = true ∧
  ∀ u v, pre = u +:+ v → v ≠ "" → strings.HasPrefix (v +:+ rest) l = false.
Proof.
  induction pre as [|c pre IH]; intros H.
  - change ("" +:+ rest) with rest in H. change (len "") with 0 in H. split.
    + destruct rest as [|b r]; cbn [strings.index_from] in H.
      * by destruct (strings.HasPrefix "" l).
      * destruct (strings.HasPrefix (String b r) l); [done|].
        rewrite index_from_shift in H. destruct (_ <? 0) eqn:E; [lia|].
        pose proof (index_from_lower r l). lia.
    + intros u v Huv Hv. by destruct u, v.
  - change (String c pre +:+ rest) with (String c (pre +:+ rest)) in H.
    change (len (String c pre)) with (1 + len pre) in H.
    pose proof (len_nonneg pre).
    cbn [strings.index_from] in H.
    destruct (strings.HasPrefix (String c (pre +:+ rest)) l) eqn:Hp; [lia|].
    rewrite index_from_shift in H.
    destruct (strings.index_from 0 (pre +:+ rest) l <? 0) eqn:E; [lia|].
    destruct IH as [Hr Hn]; [lia|]. split; [done|].
    intros u v Huv Hv. destruct u as [|c' u].
    + change ("" +:+ v) with v in Huv. by subst v.
    + injection Huv as -> ->. apply (Hn u v eq_refl Hv).
Qed.

End First_index.

Section Lazy.

Context {R : Type} (p : ascii -> bool) (k : Z -> string -> captures -> option R).

(** A lazy star passes over a run of its class on which [k] fails. *)
Lemma lazy_passes (u rest : string) (pos : Z) (cs : captures) :
  all_bytes p u = true →
  (∀ u1 v, u = u1 +:+ v → v ≠ "" → k (pos + len u1) (v +:+ rest) cs = None) →
  lazy p k pos (u +:+ rest) cs = lazy p k (pos + len u) rest cs.
Proof.
  revert pos. induction u as [|c u IH]; intros pos Hall Hnone.
  - change ("" +:+ rest) with rest. change (len "") with 0. by rewrite Z.add_0_r.
  - change (String c u +:+ rest) with (String c (u +:+ rest)).
    cbn [lazy]. pose proof (Hnone "" (String c u) eq_refl) as H0.
    change (len "") with 0 in H0. rewrite Z.add_0_r in H0.
    change (String c u +:+ rest) with (String c (u +:+ rest)) in H0.
    rewrite H0 by done. cbn [all_bytes] in Hall.
    apply andb_prop in Hall as [-> Hall].
    change (len (String c u)) with (1 + len u).
    rewrite (IH (pos + 1) Hall).
    + by replace (pos + 1 + len u) with (pos + (1 + len u)) by lia.
    + intros u1 v -> Hv. specialize (Hnone (String c u1) v eq_refl Hv).
      change (len (String c u1)) with (1 + len u1) in Hnone.
      by replace (pos + 1 + len u1) with (pos + (1 + len u1)) by lia.
Qed.

Lemma lazy_stops (s : string) (pos : Z) (cs : captures) (x : R) :
  k pos s cs = Some x → lazy p k pos s cs = Some x.
Proof. intros H. destruct s; cbn [lazy]; by rewrite H. Qed.

(** A lazy star fails where [k] fails on every suffix. *)
Lemma lazy_none (s : string) (pos : Z) (cs : captures) :
  (∀ u v, s = u +:+ v → k (pos + len u) v cs = None) →
  lazy p k pos s cs = None.
Proof.
  revert pos. induction s as [|c t IH]; intros pos Hnone.
  - cbn [lazy]. pose proof (Hnone "" "" eq_refl) as H0.
    change (len "") with 0 in H0. rewrite Z.add_0_r in H0. by rewrite H0.
  - cbn [lazy]. pose proof (Hnone "" (String c t) eq_refl) as H0.
    change (len "") with 0 in H0. rewrite Z.add_0_r in H0. rewrite H0.
    destruct (p c); [|done]. apply IH. intros u v ->.
    specialize (Hnone (String c u) v eq_refl).
    change (len (String c u)) with (1 + len u) in Hnone.
    by replace (pos + 1 + len u) with (pos + (1 + len u)) by lia.
Qed.

End Lazy.

Section Title.

Lemma len_to_lower (s : string) : len (to_lower s) = len s.
Proof. induction s as [|c t IH]; [done|]. simpl. by rewrite IH. Qed.

Lemma len_app (x y : string) : len (x +:+ y) = len x + len y.
Proof.
  induction x as [|c x IH]; [done|].
  change (String c x +:+ y) with (String c (x +:+ y)).
  change (len (String c (x +:+ y))) with (1 + len (x +:+ y)).
  change (len (String c x)) with (1 + len x). rewrite IH. lia.
Qed.

Lemma append_assoc (x y z : string) : (x +:+ y) +:+ z = x +:+ y +:+ z.
Proof.
  induction x as [|c x IH]; [done|].
  change (String c x +:+ y) with (String c (x +:+ y)).
  change (String c (x +:+ y) +:+ z) with (String c ((x +:+ y) +:+ z)).
  by rewrite IH.
Qed.

Lemma take_app_exact (x y : string) : take (len x) (x +:+ y) = x.
Proof.
  induction x as [|c x IH]; [by destruct y|].
  change (String c x +:+ y) with (String c (x +:+ y)).
  change (len (String c x)) with (1 + len x). cbn [take].
  pose proof (len_nonneg x). destruct (Z.leb_spec (1 + len x) 0); [lia|].
  replace (1 + len x - 1) with (len x) by lia. by rewrite IH.
Qed.

Lemma fold_case_idem (c : ascii) : fold_case (fold_case c) = fold_case c.
Proof.
  unfold fold_case.
  destruct ((65 <=? byte c) && (byte c <=? 90)) eqn:E; [|by rewrite E].
  assert (Hb : byte (ascii_of_N (Z.to_N (byte c + 32))) = byte c + 32).
  { unfold byte at 1. rewrite N_ascii_embedding; [lia|].
    pose proof (byte_range c). lia. }
  rewrite Hb. destruct ((65 <=? byte c + 32) && (byte c + 32 <=? 90)) eqn:E'; [lia|done].
Qed.

(** A text that reads as [l] in lower case is stripped by the literal [l]
    under the flag [i]. *)
Lemma strip_fold_exact (l x rest : string) :
  to_lower x = to_lower l → strip_with eq_fold l (x +:+ rest) = Some rest.
Proof.
  revert x. induction l as [|a l IH]; intros x H.
  - destruct x; [|done]. by destruct rest.
  - destruct x as [|b x]; [done|]. simpl in H. injection H as Hc H.
    change (String b x +:+ rest) with (String b (x +:+ rest)).
    cbn [strip_with]. rewrite eqb_fold, Hc, Ascii.eqb_refl. by apply IH.
Qed.

Lemma strip_fold_none (l s : string) :
  strings.HasPrefix (to_lower s) (to_lower l) = false →
  strip_with eq_fold l s = None.
Proof.
  intros H. destruct (strip_with eq_fold l s) eqn:E; [|done].
  assert (Hs : is_Some (strip_with eq_fold l s)) by (rewrite E; eauto).
  apply strip_fold in Hs. congruence.
Qed.

Lemma strip_with_app (eq : ascii -> ascii -> bool) (l s rest : string) :
  strip_with eq l s = Some rest → ∃ o, s = o +:+ rest ∧ len o = len l.
Proof.
  revert s. induction l as [|a l IH]; intros s H.
  - exists "". by destruct s; injection H as <-.
  - destruct s as [|b s]; [done|]. cbn [strip_with] in H.
    destruct (eq a b); [|done]. apply IH in H as (o & -> & Hl).
    exists (String b o). split; [done|].
    change (len (String b o)) with (1 + len o).
    change (len (String a l)) with (1 + len l). lia.
Qed.



Lemma run_title_rest (pos : Z) (s : string) :
  run title_rest pos s [] final = lazy not_newline (closing pos s) pos s [].
Proof.
  unfold title_rest, dot. by rewrite run_Cat, run_Group, run_star_lazy.
Qed.

Lemma match_titleRegex (pos : Z) (s : string) :
  match_here titleRegex pos s
  = match strip_with eq_fold "<title>" s with
    | Some rest => lazy not_newline (closing (pos + 7) rest) (pos + 7) rest []
    | None => None
    end.
Proof.
  unfold match_here, titleRegex. cbn [cat]. fold title_rest.
  rewrite run_Cat, run_lit_i. destruct (strip_with eq_fold "<title>" s); [|done].
  apply run_title_rest.
Qed.

Lemma no_byte_all (c : ascii) (s : string) :
  has_byte c s = false → all_bytes (λ b, negb (Ascii.eqb b c)) s = true.
Proof.
  induction s as [|b t IH]; [done|]. cbn [has_byte all_bytes].
  intros [-> H]%orb_false_elim. by rewrite IH.
Qed.

(** The title found when the first opening tag is closed on its line. *)
Lemma search_title (pre open t close post : string) :
  to_lower open = "<title>" → to_lower close = "</title>" →
  strings.Index (to_lower (pre +:+ open +:+ t +:+ close +:+ post)) "<title>"
  = len pre →
  has_byte "010" t = false →
  strings.Index (to_lower (t +:+ close +:+ post)) "</title>" = len t →
  FindStringSubmatch titleRegex (pre +:+ open +:+ t +:+ close +:+ post)
  = [open +:+ t +:+ close; t].
Proof.
  intros Hopen Hclose Hfirst Hline Hlast.
  unfold FindStringSubmatch, strings.Index in *.
  rewrite to_lower_app in Hfirst. rewrite <- (len_to_lower pre) in Hfirst.
  apply index_from_first in Hfirst as [_ Hbefore].
  rewrite to_lower_app in Hlast. rewrite <- (len_to_lower t) in Hlast.
  apply index_from_first in Hlast as [_ Hinside].
  assert (Hhit : match_here titleRegex (0 + len pre) (open +:+ t +:+ close +:+ post)
                 = Some (0 + len pre + 7 + len t + 8, [(1%nat, t)])).
  { rewrite match_titleRegex, (strip_fold_exact "<title>" open) by done.
    rewrite (lazy_passes not_newline _ t).
    - apply lazy_stops. unfold closing. rewrite run_lit_i.
      rewrite (strip_fold_exact "</title>" close) by done. unfold final.
      replace (0 + len pre + 7 + len t - (0 + len pre + 7)) with (len t) by lia.
      by rewrite take_app_exact.
    - by apply no_byte_all.
    - intros u1 v -> Hv. unfold closing. rewrite run_lit_i.
      rewrite strip_fold_none; [done|].
      rewrite to_lower_app. apply (Hinside (to_lower u1) (to_lower v)).
      + by rewrite to_lower_app.
      + by destruct v. }
  rewrite (search_first_hit titleRegex pre _ 0 _ _ ) with (2 := Hhit).
  - replace (0 + len pre + 7 + len t + 8 - (0 + len pre))
      with (len (open +:+ t +:+ close)).
    + replace (open +:+ t +:+ close +:+ post)
        with ((open +:+ t +:+ close) +:+ post) by (by rewrite !append_assoc).
      by rewrite take_app_exact.
    + rewrite !len_app, <- (len_to_lower open), <- (len_to_lower close), Hopen, Hclose.
      simpl len. lia.
  - intros u v -> Hv. rewrite match_titleRegex, strip_fold_none; [done|].
    rewrite !to_lower_app. rewrite <- !to_lower_app.
    rewrite to_lower_app. apply (Hbefore (to_lower u) (to_lower v)).
    + by rewrite to_lower_app.
    + by destruct v.
Qed.

Lemma search_title_none (body : string) :
  ¬ has_substring (to_lower body) "<title>"
  ∨ ¬ has_substring (to_lower body) "</title>" →
  FindStringSubmatch titleRegex body = [].
Proof.
  intros Hno. unfold FindStringSubmatch. rewrite search_none; [done|].
  intros u v ->. rewrite match_titleRegex.
  destruct (strip_with eq_fold "<title>" v) as [rest|] eqn:Hs; [|done].
  assert (Hv : strings.HasPrefix (to_lower v) "<title>" = true).
  { apply (strip_fold "<title>"). rewrite Hs. eauto. }
  destruct Hno as [Hno|Hno].
  { destruct Hno. apply somewhere_fold. by exists u, v. }
  apply lazy_none. intros u' v' ->. unfold closing. rewrite run_lit_i.
  rewrite strip_fold_none; [done|].
  destruct (strings.HasPrefix (to_lower v') (to_lower "</title>")) eqn:Hc; [|done].
  destruct Hno. apply somewhere_fold.
  apply strip_with_app in Hs as (o & -> & _).
  exists (u +:+ o +:+ u'), v'. by rewrite !append_assoc.
Qed.

End Title.

(** X9.  Without an opening tag, or without a closing tag, in any letter case,
    the title has length 0 and no word. *)
Theorem title_absent (body : string) :
  ¬ has_substring (to_lower body) "<title>"
  ∨ ¬ has_substring (to_lower body) "</title>" →
  CalculateTitleLength body = "0" ∧ CalculateTitleWords body = "0".
Proof.
  intros H. unfold CalculateTitleLength, CalculateTitleWords.
  by rewrite (search_title_none body H).
Qed.

(** X8.  When the first opening tag of the body is closed on the same line, the
    title is the text between the tag and the first closing tag after it:
    its length is counted in bytes and its words as [strings.Fields] cuts
    them. *)
Theorem title_present (pre open t close post : string) :
  to_lower open = "<title>" → to_lower close = "</title>" →
  strings.Index (to_lower (pre +:+ open +:+ t +:+ close +:+ post)) "<title>"
  = len pre →
  has_byte "010" t = false →
  strings.Index (to_lower (t +:+ close +:+ post)) "</title>" = len t →
  CalculateTitleLength (pre +:+ open +:+ t +:+ close +:+ post)
  = strconv.Itoa (len t)
  ∧ CalculateTitleWords (pre +:+ open +:+ t +:+ close +:+ post)
    = strconv.Itoa (slice_len (strings.Fields t)).
Proof.
  intros H1 H2 H3 H4 H5. unfold CalculateTitleLength, CalculateTitleWords.
  by rewrite (search_title pre open t close post H1 H2 H3 H4 H5).
Qed.

Section Status.

Context {R : Type} (p : ascii -> bool) (k : Z -> string -> captures -> option R).

Lemma run_plus (pos : Z) (s : string) (cs : captures) :
  run (Plus true (Class p)) pos s cs k
  = match s with
    | String c t => if p c then greedy p k (pos + 1) t cs else None
    | EmptyString => None
    end.
Proof.
  unfold Plus. rewrite run_Cat, run_Class. destruct s as [|c t]; [done|].
  destruct (p c); [|done]. apply run_star_greedy.
Qed.

(** A greedy star takes a whole run of its class when [k] succeeds after it. *)
Lemma greedy_max (u rest : string) (pos : Z) (cs : captures) (x : R) :
  all_bytes p u = true → stops p rest = true →
  k (pos + len u) rest cs = Some x →
  greedy p k pos (u +:+ rest) cs = Some x.
Proof.
  revert pos. induction u as [|c u IH]; intros pos Hall Hstop Hk.
  - change ("" +:+ rest) with rest. change (len "") with 0 in Hk.
    rewrite Z.add_0_r in Hk. destruct rest as [|b r]; cbn [greedy]; [done|].
    cbn [stops] in Hstop. apply negb_true_iff in Hstop. by rewrite Hstop.
  - change (String c u +:+ rest) with (String c (u +:+ rest)). cbn [greedy].
    cbn [all_bytes] in Hall. apply andb_prop in Hall as [-> Hall].
    rewrite (IH (pos + 1) Hall Hstop); [done|].
    change (len (String c u)) with (1 + len u) in Hk.
    by replace (pos + 1 + len u) with (pos + (1 + len u)) by lia.
Qed.

Lemma plus_max (u rest : string) (pos : Z) (cs : captures) (x : R) :
  u ≠ "" → all_bytes p u = true → stops p rest = true →
  k (pos + len u) rest cs = Some x →
  run (Plus true (Class p)) pos (u +:+ rest) cs k = Some x.
Proof.
  intros Hu Hall Hstop Hk. rewrite run_plus. destruct u as [|c u]; [done|].
  change (String c u +:+ rest) with (String c (u +:+ rest)).
  cbn [all_bytes] in Hall. apply andb_prop in Hall as [-> Hall].
  apply greedy_max; [done..|].
  change (len (String c u)) with (1 + len u) in Hk.
  by replace (pos + 1 + len u) with (pos + (1 + len u)) by lia.
Qed.

Lemma plus_none (s : string) (pos : Z) (cs : captures) :
  stops p s = true → run (Plus true (Class p)) pos s cs k = None.
Proof.
  intros Hs. rewrite run_plus. destruct s as [|c t]; [done|].
  cbn [stops] in Hs. apply negb_true_iff in Hs. by rewrite Hs.
Qed.

End Status.

Section Status_line.


Lemma all_bytes_app (p : ascii -> bool) (x y : string) :
  all_bytes p (x +:+ y) = all_bytes p x && all_bytes p y.
Proof.
  induction x as [|c x IH]; [done|].
  change (String c x +:+ y) with (String c (x +:+ y)). cbn [all_bytes].
  by rewrite IH, andb_assoc.
Qed.

Lemma all_bytes_impl (p q : ascii -> bool) (s : string) :
  (∀ c, p c = true → q c = true) → all_bytes p s = true → all_bytes q s = true.
Proof.
  intros Hpq. induction s as [|c t IH]; [done|]. cbn [all_bytes].
  intros [Hc Ht]%andb_prop. by rewrite (Hpq c Hc), IH.
Qed.

Lemma stops_app (p q : ascii -> bool) (u rest : string) :
  u ≠ "" → all_bytes q u = true → (∀ c, q c = true → p c = false) →
  stops p (u +:+ rest) = true.
Proof.
  intros Hu Hall Hqp. destruct u as [|c u]; [done|].
  cbn [all_bytes] in Hall. apply andb_prop in Hall as [Hc _].
  change (String c u +:+ rest) with (String c (u +:+ rest)). cbn [stops].
  by rewrite (Hqp c Hc).
Qed.

Lemma space_not_digit (c : ascii) : is_space c = true → is_digit c = false.
Proof.
  unfold is_space, is_digit. intros H.
  repeat (apply orb_prop in H as [H|H]);
    apply Ascii.eqb_eq in H; by subst c.
Qed.

Lemma digit_not_space (c : ascii) : is_digit c = true → is_space c = false.
Proof.
  intros H. destruct (is_space c) eqn:E; [|done].
  apply space_not_digit in E. congruence.
Qed.

Lemma match_after_version (sp1 code sp2 rest : string) (pos : Z) :
  sp1 ≠ "" → all_bytes is_space sp1 = true →
  code ≠ "" → all_bytes is_digit code = true →
  sp2 ≠ "" → all_bytes is_space sp2 = true →
  stops is_space rest = true →
  run after_version pos (sp1 +:+ code +:+ sp2 +:+ rest) [] final
  = Some (pos + len sp1 + len code + len sp2, [(1%nat, code)]).
Proof.
  intros Hs1 Ha1 Hc Hac Hs2 Ha2 Hstop.
  unfold after_version, space, digit. rewrite run_Cat.
  apply (plus_max is_space); [done..| |].
  { apply (stops_app _ is_digit); [done..|apply digit_not_space]. }
  rewrite run_Cat, run_Group.
  apply (plus_max is_digit); [done..| |].
  { apply (stops_app _ is_space); [done..|apply space_not_digit]. }
  apply (plus_max is_space); [done..|]. unfold final.
  replace (pos + len sp1 + len code - (pos + len sp1)) with (len code) by lia.
  by rewrite take_app_exact.
Qed.

Lemma match_statusRegex (pos : Z) (s : string) :
  match_here statusRegex pos s
  = match strip_with Ascii.eqb "HTTP/" s with
    | Some rest =>
      lazy not_newline (λ pos' s' cs', run after_version pos' s' cs' final)
        (pos + 5) rest []
    | None => None
    end.
Proof.
  unfold match_here, statusRegex. cbn [cat]. fold after_version.
  rewrite run_Cat, run_lit. destruct (strip_with Ascii.eqb "HTTP/" s); [|done].
  unfold dot. by rewrite run_Cat, run_star_lazy.
Qed.

Lemma strip_exact (l rest : string) : strip_with Ascii.eqb l (l +:+ rest) = Some rest.
Proof.
  induction l as [|a l IH]; [by destruct rest|].
  change (String a l +:+ rest) with (String a (l +:+ rest)).
  cbn [strip_with]. by rewrite Ascii.eqb_refl.
Qed.

Lemma search_status (pre ver sp1 code sp2 rest : string) :
  strings.Index (pre +:+ "HTTP/" +:+ ver +:+ sp1 +:+ code +:+ sp2 +:+ rest) "HTTP/"
  = len pre →
  all_bytes (λ c, negb (is_space c)) ver = true →
  sp1 ≠ "" → all_bytes is_space sp1 = true →
  code ≠ "" → all_bytes is_digit code = true →
  sp2 ≠ "" → all_bytes is_space sp2 = true →
  stops is_space rest = true →
  ∃ full,
    FindStringSubmatch statusRegex
      (pre +:+ "HTTP/" +:+ ver +:+ sp1 +:+ code +:+ sp2 +:+ rest)
    = [full; code].
Proof.
  intros Hfirst Hver Hs1 Ha1 Hc Hac Hs2 Ha2 Hstop.
  unfold FindStringSubmatch, strings.Index in *.
  apply index_from_first in Hfirst as [_ Hbefore].
  assert (Hhit : match_here statusRegex (0 + len pre)
                   ("HTTP/" +:+ ver +:+ sp1 +:+ code +:+ sp2 +:+ rest)
                 = Some (0 + len pre + 5 + len ver + len sp1 + len code + len sp2,
                         [(1%nat, code)])).
  { rewrite match_statusRegex, strip_exact.
    rewrite (lazy_passes not_newline _ ver).
    - apply lazy_stops. by apply match_after_version.
    - revert Hver. apply all_bytes_impl. intros c Hc'. unfold not_newline, is_space in *.
      destruct (Ascii.eqb c "010"); [|done]. by rewrite orb_true_r in Hc'.
    - intros u1 v -> Hv. unfold after_version, space. rewrite run_Cat.
      apply plus_none. destruct v as [|b v]; [done|].
      rewrite all_bytes_app in Hver. apply andb_prop in Hver as [_ Hver].
      cbn [all_bytes] in Hver. apply andb_prop in Hver as [Hb _].
      change (String b v +:+ ?x) with (String b (v +:+ x)). by cbn [stops]. }
  rewrite (search_first_hit statusRegex pre _ 0 _ _ ) with (2 := Hhit).
  - by eexists.
  - intros u v -> Hv. rewrite match_statusRegex, strip_HasPrefix.
    by rewrite (Hbefore u v eq_refl Hv).
Qed.

End Status_line.

(** X1.  The status of a status line: after the first [HTTP/] of the headers, a
    version without white space, white space, digits, and white space again
    before the rest, the status is the digits. *)
Theorem GetStatus_status_line (pre ver sp1 code sp2 rest : string) :
  strings.Index (pre +:+ "HTTP/" +:+ ver +:+ sp1 +:+ code +:+ sp2 +:+ rest) "HTTP/"
  = len pre →
  all_bytes (λ c, negb (is_space c)) ver = true →
  sp1 ≠ "" → all_bytes is_space sp1 = true →
  code ≠ "" → all_bytes is_digit code = true →
  sp2 ≠ "" → all_bytes is_space sp2 = true →
  stops is_space rest = true →
  GetStatus (pre +:+ "HTTP/" +:+ ver +:+ sp1 +:+ code +:+ sp2 +:+ rest) = code.
Proof.
  intros H1 H2 H3 H4 H5 H6 H7 H8 H9. unfold GetStatus.
  destruct (search_status pre ver sp1 code sp2 rest H1 H2 H3 H4 H5 H6 H7 H8 H9)
    as [full ->].
  reflexivity.
Qed.

(** X2.  Headers without the text [HTTP/] have the empty status. *)
Theorem GetStatus_absent (headers : string) :
  ¬ has_substring headers "HTTP/" → GetStatus headers = "".
Proof.
  intros Hno. unfold GetStatus, FindStringSubmatch.
  rewrite search_none; [done|].
  intros u v ->. rewrite match_statusRegex, strip_HasPrefix.
  destruct (strings.HasPrefix v "HTTP/") eqn:Hp; [|done].
  destruct Hno. apply HasPrefix_spec in Hp as [post ->]. by exists u, post.
Qed.

(** ** Reading a file, once more *)

Section Metrics.

Context (url_Parse : string -> option url.URL).


Lemma take_whole (n : Z) (s : string) : len s ≤ n → take n s = s.
Proof.
  revert n. induction s as [|c t IH]; intros n Hn; [done|].
  change (len (String c t)) with (1 + len t) in Hn. pose proof (len_nonneg t).
  cbn [take]. destruct (Z.leb_spec n 0); [lia|]. f_equal. apply IH. lia.
Qed.

End Metrics.


(** X16.  A file gets metrics exactly when it exists, may be opened, is not
    empty, and the word scanner comes to the end of what follows its first
    1000000 bytes without an error. *)
Theorem computeMetrics_succeeds_iff (url_Parse : string -> option url.URL)
    (fs : gmap string file) (p : string) :
  (computeMetrics url_Parse fs p).2 = None ↔
  ∃ f, fs !! p = Some f ∧ readable f = true ∧ data f ≠ "" ∧
       (bufio.Scanner bufio.ScanWords (drop 1000000 (data f))).2 = None.
Proof.
  split.
  - destruct (computeMetrics url_Parse fs p) as [m err] eqn:Hm.
    simpl. intros ->.
    apply computeMetrics_ok in Hm as (f & ? & ? & ? & _ & ?). eauto.
  - intros (f & Hf & Hr & Hne & Hs).
    unfold computeMetrics, os.Open. rewrite Hf, Hr. unfold io.ReadFull.
    destruct (bufio.Scanner bufio.ScanWords (drop 1000000 (data f)))
      as [words serr].
    simpl in Hs. subst serr.
    destruct (SeperateContentIntoHeadersAndBody (take 1000000 (data f)))
      as [Headers Body].
    destruct (1000000 <=? len (take 1000000 (data f))); [done|].
    assert (0 < len (take 1000000 (data f))).
    { destruct (data f) as [|c t]; [done|]. cbn [take].
      change (1000000 <=? 0) with false. cbn iota.
      change (len (String c (take (1000000 - 1) t)))
        with (1 + len (take (1000000 - 1) t)).
      pose proof (len_nonneg (take (1000000 - 1) t)). lia. }
    destruct (Z.ltb_spec 0 (len (take 1000000 (data f)))); [done|lia].
Qed.

(** X17.  Every file that may be opened, is not empty and has at most 1000000
    bytes gets metrics: there is no error, and the word count is 0. *)
Theorem small_file_has_metrics (url_Parse : string -> option url.URL)
    (fs : gmap string file) (p : string) (f : file) :
  fs !! p = Some f → readable f = true → data f ≠ "" →
  len (data f) ≤ 1000000 →
  ∃ m, computeMetrics url_Parse fs p = (m, None) ∧ FileMetrics.Words m = 0.
Proof.
  intros Hf Hr Hne Hlen. unfold computeMetrics, os.Open.
  rewrite Hf, Hr. unfold io.ReadFull.
  rewrite (take_whole 1000000 (data f) Hlen), (drop_all 1000000 (data f) Hlen).
  rewrite ScanWords_empty.
  destruct (SeperateContentIntoHeadersAndBody (data f)) as [Headers Body].
  assert (0 < len (data f)).
  { destruct (data f); [done|]. cbn [len]. pose proof (len_nonneg s). lia. }
  destruct (Z.leb_spec 1000000 (len (data f))); [by eexists|].
  destruct (Z.ltb_spec 0 (len (data f))); [by eexists|lia].
Qed.

(** ** What a run may remove *)

Section Safety.

Context (url_Parse : string -> option url.URL).

Implicit Types (fs : gmap string file) (es : list entry)
  (order : list (string * list string)).

Lemma computeMetrics_local fs fs' (p : string) :
  fs !! p = fs' !! p →
  computeMetrics url_Parse fs p = computeMetrics url_Parse fs' p.
Proof. intros H. unfold computeMetrics, os.Open. by rewrite H. Qed.

(** The first path of a group is not among the paths handed to
    [os.Remove]. *)
Lemma first_spared fs es order (key first : string) (rest : list string) :
  NoDup (path <$> es) →
  order ≡ₚ map_to_list (walk url_Parse fs es) →
  walk url_Parse fs es !! key = Some (first :: rest) →
  first ∉ doomed order.
Proof.
  intros Hnd Hperm Hl.
  pose proof Hl as [Hfiles _]%walk_lookup.
  intros (key' & files' & Hl' & Hp')%(doomed_grouped url_Parse fs es); [|done].
  pose proof Hl' as [Hfiles' _]%walk_lookup.
  assert (key = key'); [|subst key'].
  { apply (members_key_unique url_Parse fs es es key key' first).
    - rewrite <- Hfiles. by apply elem_of_cons; left.
    - rewrite <- Hfiles'. by apply elem_of_tail. }
  rewrite Hl in Hl'. injection Hl' as <-. simpl in Hp'.
  assert (Hnd' : NoDup (first :: rest)).
  { rewrite Hfiles. by apply members_NoDup. }
  by apply NoDup_cons in Hnd' as [? _].
Qed.

(** A file that the pruning pass took from the disk was a later member of a
    group, and the first member of that group is another file, with the
    same key, that is still on disk. *)
Lemma gone_has_twin fs es order (p : string) (f : file) :
  NoDup (path <$> es) →
  order ≡ₚ map_to_list (walk url_Parse fs es) →
  fs !! p = Some f →
  disk (prune fs order) !! p = None →
  ∃ (q : string) (m mq : FileMetrics.t) (fq : file),
    q ≠ p ∧
    computeMetrics url_Parse fs p = (m, None) ∧
    computeMetrics url_Parse fs q = (mq, None) ∧
    keyForMetrics mq = keyForMetrics m ∧
    fs !! q = Some fq ∧
    disk (prune fs order) !! q = Some fq.
Proof.
  intros Hnd Hperm Hf Hgone.
  destruct (decide (p ∈ doomed order)) as [Hd|Hd]; last first.
  { rewrite disk_prune, run_spares in Hgone by done. congruence. }
  apply elem_of_doomed in Hd as (key & files & Hin & Hlen & Hp).
  apply (elem_of_order url_Parse fs es order) in Hin; [|done].
  pose proof Hin as [Hfiles Hne]%walk_lookup.
  destruct files as [|q rest]; [done|]. simpl in Hp.
  assert (Hnd' : NoDup (q :: rest)).
  { rewrite Hfiles. by apply members_NoDup. }
  assert (Hq : q ∈ members url_Parse fs es key).
  { rewrite <- Hfiles. by apply elem_of_cons; left. }
  assert (Hp' : p ∈ members url_Parse fs es key).
  { rewrite <- Hfiles. by apply elem_of_cons; right. }
  destruct (members_on_disk url_Parse fs es key q Hq) as (fq & Hfq & _).
  apply elem_of_members in Hq as (eq & _ & <- & Hq).
  apply elem_of_members in Hp' as (ep & _ & <- & Hp').
  apply accepted_Some in Hq as (_ & _ & mq & Hmq & Hkq).
  apply accepted_Some in Hp' as (_ & _ & m & Hm & Hkp).
  exists (path eq), m, mq, fq. split_and!; try done.
  - intros E. apply NoDup_cons in Hnd' as [Hnot _]. by rewrite E in Hnot.
  - congruence.
  - rewrite disk_prune, run_spares; [done|].
    by apply (first_spared fs es order key (path eq) rest).
Qed.

(** Once the duplicates are gone, what is left has one file to a key. *)
Lemma pruned_groups_single fs es es' order (key : string) :
  NoDup (path <$> es) →
  order ≡ₚ map_to_list (walk url_Parse fs es) →
  (∀ p f, p ∈ doomed order → fs !! p = Some f → removable f = true) →
  es' ⊆ es → NoDup (path <$> es') →
  slice_len (members url_Parse (disk (prune fs order)) es' key) ≤ 1.
Proof.
  intros Hnd Hperm Hrem Hsub Hnd'.
  set (fs' := disk (prune fs order)).
  assert (Hback : ∀ p, p ∈ members url_Parse fs' es' key →
                       p ∈ members url_Parse fs es key ∧ is_Some (fs' !! p)).
  { intros p Hp.
    destruct (members_on_disk url_Parse fs' es' key p Hp) as (f & Hf & _).
    split; [|by eexists].
    assert (fs !! p = Some f) as Hf0.
    { unfold fs' in Hf. rewrite disk_prune in Hf. by apply run_shrinks in Hf. }
    apply elem_of_members in Hp as (e & He & <- & Ha).
    apply elem_of_members. exists e. split_and!; [by apply Hsub|done|].
    apply accepted_Some in Ha as (Hw & Hdir & m & Hm & Hk).
    apply accepted_Some. split_and!; [done..|]. exists m. split; [|done].
    rewrite <- Hm. apply computeMetrics_local. congruence. }
  pose proof (members_NoDup url_Parse fs' es' key Hnd') as Hndm.
  destruct (members url_Parse fs' es' key) as [|p1 [|p2 l]] eqn:E;
    [unfold slice_len; simpl; lia..|exfalso].
  destruct (Hback p1) as [H1 [f1 Hf1]]; [set_solver|].
  destruct (Hback p2) as [H2 [f2 Hf2]]; [set_solver|].
  assert (p1 ≠ p2) as Hne.
  { apply NoDup_cons in Hndm as [Hn _]. set_solver. }
  destruct (members url_Parse fs es key) as [|q rest] eqn:Em;
    [by apply elem_of_nil in H1|].
  assert (Hl : walk url_Parse fs es !! key = Some (q :: rest)).
  { apply walk_lookup. by rewrite Em. }
  assert (Hlen : 1 < slice_len (q :: rest)).
  { destruct rest as [|q' rest'].
    - apply list_elem_of_singleton in H1, H2. congruence.
    - unfold slice_len. simpl length. lia. }
  assert (∃ p f, p ∈ rest ∧ fs' !! p = Some f) as (p & f & Hp & Hf).
  { apply elem_of_cons in H1 as [->|H1]; [|by eauto].
    apply elem_of_cons in H2 as [->|H2]; [done|by eauto]. }
  assert (Hd : p ∈ doomed order).
  { apply elem_of_doomed. exists key, (q :: rest). split_and!; [|done..].
    by apply (elem_of_order url_Parse fs es order). }
  unfold fs' in Hf. rewrite disk_prune, run_removes in Hf; [done|done|].
  intros f0. by apply Hrem.
Qed.

Lemma fold_prune_group_single (order : list (string * list string)) (st : pruning) :
  (∀ key files, (key, files) ∈ order → slice_len files ≤ 1) →
  fold_left prune_group order st = st.
Proof.
  revert st. induction order as [|[key files] order IH]; intros st H; [done|].
  simpl. assert (slice_len files ≤ 1) as Hle by (apply (H key); set_solver).
  destruct (Z.ltb_spec 1 (slice_len files)); [lia|].
  apply IH. intros k fl Hin. apply (H k). set_solver.
Qed.

Lemma second_pass fs es es' order order' :
  NoDup (path <$> es) →
  order ≡ₚ map_to_list (walk url_Parse fs es) →
  (∀ p f, p ∈ doomed order → fs !! p = Some f → removable f = true) →
  es' ⊆ es → NoDup (path <$> es') →
  order' ≡ₚ map_to_list (walk url_Parse (disk (prune fs order)) es') →
  prune (disk (prune fs order)) order'
  = Pruning (disk (prune fs order)) 0 [Total 0].
Proof.
  intros Hnd Hperm Hrem Hsub Hnd' Hperm'.
  unfold prune at 1. rewrite fold_prune_group_single; [done|].
  intros key files Hin.
  apply (elem_of_order url_Parse (disk (prune fs order)) es' order') in Hin; [|done].
  apply walk_lookup in Hin as [-> _].
  by apply (pruned_groups_single fs es es' order key).
Qed.

End Safety.

(** X19.  [main] takes a file from the disk only when another file with the same
    key stays: whatever the order in which the groups are ranged over, a
    file that is gone after the run had metrics, and a different path with
    metrics of the same key is still on disk, unchanged.  The walk visits
    no path twice. *)
Theorem main_removes_only_duplicates (url_Parse : string -> option url.URL)
    (args : list string) (Walk : string -> list entry)
    (iter : gmap string (list string) -> list (string * list string))
    (fs : gmap string file) (st : pruning) (p : string) (f : file) :
  (∀ g, iter g ≡ₚ map_to_list g) →
  NoDup (path <$> Walk (nth 1 args "")) →
  main url_Parse args Walk iter fs = Done st →
  fs !! p = Some f →
  disk st !! p = None →
  ∃ (q : string) (m mq : FileMetrics.t) (fq : file),
    q ≠ p ∧
    computeMetrics url_Parse fs p = (m, None) ∧
    computeMetrics url_Parse fs q = (mq, None) ∧
    keyForMetrics mq = keyForMetrics m ∧
    fs !! q = Some fq ∧
    disk st !! q = Some fq.
Proof.
  intros Hiter Hnd Hmain Hf Hgone. unfold main in Hmain.
  destruct (slice_len args <? 2); [done|]. injection Hmain as <-.
  by apply (gone_has_twin url_Parse fs (Walk (nth 1 args ""))
              (iter (walk url_Parse fs (Walk (nth 1 args "")))) p f).
Qed.

(** X20.  A second run finds nothing to remove.  After a run in which every
    removal was permitted, a run over entries of the first walk, in
    whatever order the groups come, prints no group and no removal, only
    the total 0, and leaves the disk as it is. *)
Theorem second_run_removes_nothing (url_Parse : string -> option url.URL)
    (fs : gmap string file) (es es' : list entry)
    (order order' : list (string * list string)) :
  NoDup (path <$> es) →
  order ≡ₚ map_to_list (walk url_Parse fs es) →
  (∀ p f, p ∈ doomed order → fs !! p = Some f → removable f = true) →
  es' ⊆ es → NoDup (path <$> es') →
  order' ≡ₚ map_to_list (walk url_Parse (disk (prune fs order)) es') →
  prune (disk (prune fs order)) order'
  = Pruning (disk (prune fs order)) 0 [Total 0].
Proof. apply second_pass. Qed.

(** ** The splitter *)

Section First_loop.

Lemma byte_newline (c : ascii) : byte c = 0x0A → c = "010"%char.
Proof. intros H. by apply byte_inj. Qed.

Lemma byte_bracket (c : ascii) : byte c = 0x3C → c = "<"%char.
Proof. intros H. by apply byte_inj. Qed.

(** A byte below [RuneSelf] is a rune of its own. *)
Lemma DecodeRune_self (c : ascii) (t : string) :
  byte c < 0x80 → utf8.DecodeRuneInString (String c t) = (byte c, 1%nat).
Proof.
  intros H. unfold utf8.DecodeRuneInString, utf8.first.
  destruct (Z.ltb_spec (byte c) 0x80); [done|lia].
Qed.

(** The bytes a rune of more than one byte is decoded from, after the
    first, are continuation bytes. *)
Lemma DecodeRune_conts (c : ascii) (t : string) (r : Z) (w : nat) :
  utf8.DecodeRuneInString (String c t) = (r, w) → cont_prefix (Nat.pred w) t.
Proof.
  unfold utf8.DecodeRuneInString.
  destruct (utf8.first (byte c)) as [| |sz lo hi] eqn:Hf;
    [by intros [= <- <-]..|].
  apply first_Lead in Hf as [[Hlo _] _].
  destruct (negb (at_least sz (String c t))); [by intros [= <- <-]|].
  destruct t as [|c1 t1]; [by intros [= <- <-]|].
  destruct (utf8.outside lo hi (byte c1)) eqn:H1; [by intros [= <- <-]|].
  apply outside_false in H1.
  destruct (sz <=? 2); [intros [= <- <-]; simpl; lia|].
  destruct t1 as [|c2 t2]; [by intros [= <- <-]|].
  destruct (utf8.outside utf8.locb utf8.hicb (byte c2)) eqn:H2;
    [by intros [= <- <-]|].
  apply outside_false in H2. unfold utf8.locb in H2.
  destruct (sz <=? 3); [intros [= <- <-]; simpl; lia|].
  destruct t2 as [|c3 t3]; [by intros [= <- <-]|].
  destruct (utf8.outside utf8.locb utf8.hicb (byte c3)) eqn:H3;
    [by intros [= <- <-]|].
  apply outside_false in H3. unfold utf8.locb in H3.
  intros [= <- <-]. simpl. lia.
Qed.

Lemma HasPrefix_cons (c a : ascii) (t p : string) :
  strings.HasPrefix (String c t) (String a p)
  = Ascii.eqb a c && strings.HasPrefix t p.
Proof. cbn [strings.HasPrefix]. by destruct (Ascii.eqb a c). Qed.

(** The first loop of the splitter, started in the middle of the content:
    it stops at once when the rune before was a newline and a bracket
    follows, and otherwise at the bracket of the first newline and bracket
    further on. *)
Lemma find_response_exact (s : string) :
  ∀ (i prev : Z) (skip : nat),
    0 ≤ i → cont_prefix skip s → (skip ≠ 0%nat → prev ≠ 0x0A) →
    find_response prev (utf8.range_from i skip s)
    = if (prev =? 0x0A) && strings.HasPrefix s "<" then Some i
      else let j := strings.index_from i s (String "010" "<") in
           if j <? 0 then None else Some (j + 1).
Proof.
  induction s as [|c t IH]; intros i prev skip Hi Hc Hp.
  - cbn. by rewrite andb_false_r.
  - cbn [utf8.range_from]. destruct skip as [|k].
    + destruct (utf8.DecodeRuneInString (String c t)) as [r w] eqn:Hd.
      cbn [find_response].
      pose proof (DecodeRune_conts c t r w Hd) as Hconts.
      assert (Hw : Nat.pred w ≠ 0%nat → r ≠ 0x0A).
      { intros Hne ->.
        apply DecodeRune_ascii in Hd as (_ & _ & _ & _ & ->); [done|lia]. }
      rewrite (IH (i + 1) r (Nat.pred w)) by (done || lia).
      cbn [strings.index_from]. rewrite !HasPrefix_cons, HasPrefix_nil, andb_true_r.
      destruct (Z.eqb_spec r 0x3C) as [->|Hr3].
      * apply DecodeRune_ascii in Hd as (c' & t' & [= <- <-] & Hc' & _); [|lia].
        apply byte_bracket in Hc' as ->.
        change (Ascii.eqb "<" "<") with true.
        change (Ascii.eqb "010" "<") with false.
        change (0x3C =? 0x0A) with false.
        rewrite andb_true_r. cbn [andb]. by destruct (prev =? 0x0A).
      * assert (Ascii.eqb "<" c = false) as ->.
        { apply Ascii.eqb_neq. intros <-.
          rewrite DecodeRune_self in Hd by (vm_compute; done).
          injection Hd as <- <-. by apply Hr3. }
        rewrite !andb_false_r.
        destruct (Z.eqb_spec r 0x0A) as [->|Hr].
        -- apply DecodeRune_ascii in Hd as (c' & t' & [= <- <-] & Hc' & _); [|lia].
           apply byte_newline in Hc' as ->. change (Ascii.eqb "010" "010") with true.
           cbn [andb]. destruct (strings.HasPrefix t "<"); [|done].
           cbn zeta. destruct (Z.ltb_spec i 0); [lia|done].
        -- assert (Ascii.eqb "010" c = false) as ->; [|done].
           apply Ascii.eqb_neq. intros <-.
           rewrite DecodeRune_self in Hd by (vm_compute; done).
           injection Hd as <- <-. by apply Hr.
    + destruct Hc as [Hb Hc].
      rewrite (IH (i + 1) prev k) by (done || lia).
      assert ((prev =? 0x0A) = false) as -> by (apply Z.eqb_neq, Hp; done).
      cbn [andb strings.index_from]. rewrite HasPrefix_cons.
      assert (Ascii.eqb "010" c = false) as ->; [|done].
      apply Ascii.eqb_neq. intros <-. vm_compute in Hb. by apply Hb.
Qed.

End First_loop.

(** X12.  The first loop of [SeperateContentIntoHeadersAndBody] stops at the first
    angle bracket that follows a newline byte, wherever the runes of the
    content begin and end, and finds nothing when there is none: the offset
    is that of the first occurrence of the two bytes, plus one. *)
Theorem find_response_first_boundary (Content : string) :
  find_response 0 (utf8.range Content)
  = let j := strings.Index Content (String "010" "<") in
    if j <? 0 then None else Some (j + 1).
Proof.
  unfold utf8.range, strings.Index.
  by rewrite find_response_exact.
Qed.

Section Line_scanner.

Lemma at_least_spec (n : Z) (s : string) : at_least n s = (n <=? len s).
Proof.
  revert n. induction s as [|c t IH]; intros n; cbn [at_least len]; [done|].
  pose proof (len_nonneg t).
  destruct (Z.leb_spec n 0).
  - symmetry. apply Z.leb_le. lia.
  - rewrite IH. destruct (Z.leb_spec (n - 1) (len t)), (Z.leb_spec n (1 + len t)); lia || done.
Qed.

Lemma take_app_le (n : Z) (x y : string) :
  len x ≤ n → take n (x +:+ y) = x +:+ take (n - len x) y.
Proof.
  revert n. induction x as [|c x IH]; intros n Hn.
  - change ("" +:+ y) with y. change (len "") with 0. by rewrite Z.sub_0_r.
  - change (String c x +:+ y) with (String c (x +:+ y)).
    change (len (String c x)) with (1 + len x) in *. pose proof (len_nonneg x).
    cbn [take]. destruct (Z.leb_spec n 0); [lia|].
    rewrite IH by lia.
    change (String c x +:+ take (n - (1 + len x)) y)
      with (String c (x +:+ take (n - (1 + len x)) y)).
    do 3 f_equal. lia.
Qed.

Lemma drop_app_exact (x y : string) : drop (len x) (x +:+ y) = y.
Proof.
  induction x as [|c x IH]; [apply drop_0|].
  change (String c x +:+ y) with (String c (x +:+ y)).
  change (len (String c x)) with (1 + len x).
  rewrite drop_succ; [done|apply len_nonneg].
Qed.

Lemma append_nil (x : string) : x +:+ "" = x.
Proof.
  induction x as [|c x IH]; [done|].
  change (String c x +:+ "") with (String c (x +:+ "")). by rewrite IH.
Qed.

Lemma has_byte_app (c : ascii) (x y : string) :
  has_byte c (x +:+ y) = has_byte c x || has_byte c y.
Proof.
  induction x as [|b x IH]; [done|].
  change (String b x +:+ y) with (String b (x +:+ y)). cbn [has_byte].
  by rewrite IH, orb_assoc.
Qed.

Lemma index_byte_none (c : ascii) (s : string) (i : Z) :
  has_byte c s = false → bufio.index_byte_from i s c = -1.
Proof.
  revert i. induction s as [|b t IH]; intros i H; [done|].
  cbn [has_byte] in H. apply orb_false_iff in H as [Hb Ht].
  cbn [bufio.index_byte_from]. rewrite Hb. by apply IH.
Qed.

Lemma index_byte_app (c : ascii) (x u : string) (i : Z) :
  has_byte c x = false →
  bufio.index_byte_from i (x +:+ String c u) c = i + len x.
Proof.
  revert i. induction x as [|b x IH]; intros i H.
  - change ("" +:+ String c u) with (String c u). cbn [bufio.index_byte_from].
    rewrite Ascii.eqb_refl. change (len "") with 0. lia.
  - cbn [has_byte] in H. apply orb_false_iff in H as [Hb Hx].
    change (String b x +:+ String c u) with (String b (x +:+ String c u)).
    cbn [bufio.index_byte_from]. rewrite Hb, IH by done.
    change (len (String b x)) with (1 + len x). lia.
Qed.

Lemma MaxScanTokenSize_eq : bufio.MaxScanTokenSize = 65536.
Proof. reflexivity. Qed.

Lemma scan_end (fuel : nat) : bufio.scan bufio.ScanLines (S fuel) "" = ([], None).
Proof. reflexivity. Qed.

(** The line scanner with enough rounds, on an input whose first bytes
    [cur] hold no newline. *)
Lemma scan_lines (s : string) :
  ∀ (cur : string) (fuel : nat),
    has_byte "010" cur = false → len cur < bufio.MaxScanTokenSize →
    (String.length cur + String.length s < fuel)%nat →
    bufio.scan bufio.ScanLines fuel (cur +:+ s) = lines_within cur s.
Proof.
  pose proof MaxScanTokenSize_eq as HM.
  induction s as [|c t IH]; intros cur fuel Hcur Hlen Hfuel.
  - rewrite append_nil. destruct fuel as [|fuel]; [lia|].
    cbn [bufio.scan lines_within].
    rewrite take_whole, at_least_spec by lia.
    destruct (Z.leb_spec bufio.MaxScanTokenSize (len cur)); [lia|].
    unfold bufio.ScanLines at 1. rewrite index_byte_none by done.
    destruct cur as [|b cur].
    + reflexivity.
    + pose proof (len_nonneg cur).
      change (len (String b cur)) with (1 + len cur) in *.
      cbn [negb andb]. destruct (Z.eqb_spec (1 + len cur) 0); [lia|].
      change (0 <=? -1) with false. cbn iota.
      destruct (Z.ltb_spec (1 + len cur) 0); [lia|].
      destruct (Z.ltb_spec (1 + len cur) (1 + len cur)); [lia|].
      destruct (Z.eqb_spec (1 + len cur) 0); [lia|].
      rewrite drop_all by (change (len (String b cur)) with (1 + len cur); lia).
      destruct fuel as [|fuel]; [simpl in Hfuel; lia|].
      rewrite scan_end. unfold eqb. by rewrite bool_decide_eq_false_2.
  - cbn [lines_within]. destruct (Ascii.eqb_spec c "010") as [->|Hc].
    + destruct fuel as [|fuel]; [lia|]. cbn [bufio.scan].
      pose proof (len_nonneg cur).
      rewrite take_app_le by lia.
      assert (take (bufio.MaxScanTokenSize - len cur) (String "010" t)
              = String "010" (take (bufio.MaxScanTokenSize - len cur - 1) t)) as ->.
      { cbn [take].
        by destruct (Z.leb_spec (bufio.MaxScanTokenSize - len cur) 0); [lia|]. }
      set (u := take (bufio.MaxScanTokenSize - len cur - 1) t).
      unfold bufio.ScanLines at 1.
      pose proof (len_nonneg u).
      assert (Hw : len (cur +:+ String "010" u) = len cur + 1 + len u).
      { rewrite len_app. change (len (String "010" u)) with (1 + len u). lia. }
      rewrite Hw, index_byte_app by done.
      rewrite Z.add_0_l, take_app_exact.
      destruct (Z.eqb_spec (len cur + 1 + len u) 0); [lia|].
      rewrite andb_false_r.
      destruct (Z.leb_spec 0 (len cur)); [|lia].
      destruct (Z.ltb_spec (len cur + 1) 0); [lia|].
      destruct (Z.ltb_spec (len cur + 1 + len u) (len cur + 1)); [lia|].
      destruct (Z.eqb_spec (len cur + 1) 0); [lia|].
      replace (len cur + 1) with (1 + len cur) by lia.
      assert (drop (1 + len cur) (cur +:+ String "010" t) = t) as ->.
      { replace (1 + len cur) with (len (cur +:+ String "010" "")).
        - replace (cur +:+ String "010" t) with ((cur +:+ String "010" "") +:+ t).
          + apply drop_app_exact.
          + by rewrite append_assoc.
        - rewrite len_app. change (len (String "010" "")) with 1. lia. }
      assert (IHt : bufio.scan bufio.ScanLines fuel ("" +:+ t) = lines_within "" t).
      { apply IH; [done|reflexivity|]. simpl in *. lia. }
      change ("" +:+ t) with t in IHt. by rewrite IHt.
    + pose proof (len_nonneg cur).
      destruct (Z.leb_spec bufio.MaxScanTokenSize (len cur + 1)) as [Hfull|Hroom].
      * destruct fuel as [|fuel]; [lia|]. cbn [bufio.scan].
        replace (cur +:+ String c t) with ((cur +:+ String c "") +:+ t)
          by (by rewrite append_assoc).
        set (w := cur +:+ String c "").
        assert (Hw : len w = bufio.MaxScanTokenSize).
        { unfold w. rewrite len_app. change (len (String c "")) with 1. lia. }
        assert (Ht : take bufio.MaxScanTokenSize (w +:+ t) = w).
        { rewrite <- Hw. apply take_app_exact. }
        rewrite !Ht.
        rewrite at_least_spec, len_app. pose proof (len_nonneg t).
        destruct (Z.leb_spec bufio.MaxScanTokenSize (len w + len t)); [|lia].
        unfold bufio.ScanLines at 1. cbn [negb andb].
        rewrite index_byte_none.
        2:{ unfold w. rewrite has_byte_app, Hcur. cbn [has_byte orb].
            rewrite orb_false_r. by apply Ascii.eqb_neq. }
        change (0 <=? -1) with false. cbn iota.
        change (0 <? 0) with false. cbn iota.
        destruct (Z.ltb_spec (len w) 0); [lia|]. reflexivity.
      * replace (cur +:+ String c t) with ((cur +:+ String c "") +:+ t)
          by (by rewrite append_assoc).
        apply IH.
        -- rewrite has_byte_app, Hcur. cbn [has_byte orb].
           rewrite orb_false_r. by apply Ascii.eqb_neq.
        -- rewrite len_app. change (len (String c "")) with 1. lia.
        -- pose proof (len_length (cur +:+ String c "")) as E.
           rewrite len_app in E. change (len (String c "")) with 1 in E.
           pose proof (len_length cur). simpl String.length in Hfuel. lia.
Qed.

End Line_scanner.

(** X13.  A scanner that splits at lines delivers the lines of its input, each
    without its newline and without a carriage return before it, the last
    one also when no newline ends it, up to the first line of 65536 bytes
    or more: there it stops with [ErrTooLong], and this line and what
    follows it are not delivered. *)
Theorem ScanLines_lines (input : string) :
  bufio.Scanner bufio.ScanLines input = lines_within "" input.
Proof.
  unfold bufio.Scanner. change input with ("" +:+ input) at 2.
  apply scan_lines; [done|done|]. simpl. lia.
Qed.

Section Second_loop.

Lemma written_cons (l : string) (ls : list string) :
  written (l :: ls) = l +:+ String "010" (written ls).
Proof. reflexivity. Qed.

Lemma fold_separate_body (ls : list string) (H B : string) :
  fold_left separate_line ls (false, H, B) = (false, H, B +:+ written ls).
Proof.
  revert B. induction ls as [|l ls IH]; intros B.
  - simpl. by rewrite append_nil.
  - cbn [fold_left separate_line]. rewrite IH, written_cons.
    by rewrite !append_assoc.
Qed.

Lemma fold_separate (ls : list string) (H B : string) :
  ∃ b, fold_left separate_line ls (true, H, B)
       = (b, H +:+ written (unmark <$> before_blank ls),
             B +:+ written (after_blank ls)).
Proof.
  revert H. induction ls as [|l ls IH]; intros H.
  - exists true. simpl. by rewrite !append_nil.
  - cbn [fold_left separate_line before_blank after_blank].
    destruct (eqb l "").
    + exists false. rewrite fold_separate_body. simpl. by rewrite append_nil.
    + destruct (IH (H +:+ strings.Replace l "< " "" 1 +:+ String "010" ""))
        as [b ->].
      exists b. rewrite fmap_cons, written_cons. unfold unmark.
      by rewrite !append_assoc.
Qed.

Lemma split_by_lines (Content : string) :
  SeperateContentIntoHeadersAndBody Content
  = let ls := (lines_within "" (response_of Content)).1 in
    (strings.TrimSpace (written (unmark <$> before_blank ls)),
     strings.TrimSpace (written (after_blank ls))).
Proof.
  unfold SeperateContentIntoHeadersAndBody, response_of, utf8.range, strings.Index.
  rewrite find_response_exact by done. cbn [andb Z.eqb].
  cbn zeta.
  set (response := if strings.index_from 0 Content (String "010" "<") <? 0
                   then "" else drop (strings.index_from 0 Content (String "010" "<") + 1) Content).
  assert (match (if strings.index_from 0 Content (String "010" "<") <? 0
                 then None
                 else Some (strings.index_from 0 Content (String "010" "<") + 1))
          with Some i => drop i Content | None => "" end = response) as ->.
  { unfold response. by destruct (_ <? 0). }
  unfold bufio.Scanner. change response with ("" +:+ response) at 2.
  rewrite scan_lines; [|done|done|simpl; lia].
  destruct (fold_separate (lines_within "" response).1 "" "") as [b ->].
  reflexivity.
Qed.

End Second_loop.

(** X14.  The splitter, line by line.  The response is the content from the
    first angle bracket that follows a newline; the headers are its lines
    before the first empty line, each without its first marker, and the
    body the lines after that empty line, further empty lines included;
    both are written with a newline after every line and then trimmed. *)
Theorem split_at_first_blank_line (Content : string) :
  SeperateContentIntoHeadersAndBody Content
  = let ls := (lines_within "" (response_of Content)).1 in
    (strings.TrimSpace (written (unmark <$> before_blank ls)),
     strings.TrimSpace (written (after_blank ls))).
Proof. apply split_by_lines. Qed.

Section Long_lines.

Lemma HasPrefix_app_long (s x l : string) :
  len l ≤ len s → strings.HasPrefix (s +:+ x) l = strings.HasPrefix s l.
Proof.
  revert s. induction l as [|a l IH]; intros s Hl.
  - by rewrite !HasPrefix_nil.
  - destruct s as [|b s].
    + change (len "") with 0 in Hl. pose proof (len_nonneg l).
      change (len (String a l)) with (1 + len l) in Hl. lia.
    + change (String b s +:+ x) with (String b (s +:+ x)).
      rewrite !HasPrefix_cons. rewrite IH; [done|].
      change (len (String a l)) with (1 + len l) in Hl.
      change (len (String b s)) with (1 + len s) in Hl. lia.
Qed.

Lemma index_from_fits (s l : string) (i : Z) :
  0 ≤ i → 0 ≤ strings.index_from i s l →
  strings.index_from i s l - i + len l ≤ len s.
Proof.
  revert i. induction s as [|c t IH]; intros i Hi; cbn [strings.index_from].
  - destruct (strings.HasPrefix "" l) eqn:E; [|lia].
    destruct l; [simpl; lia|done].
  - destruct (strings.HasPrefix (String c t) l) eqn:E.
    + intros _. apply HasPrefix_spec in E as [post E].
      rewrite E, len_app. pose proof (len_nonneg post). lia.
    + intros H. specialize (IH (i + 1) ltac:(lia) H).
      change (len (String c t)) with (1 + len t). lia.
Qed.

Lemma index_from_app_found (s x l : string) (i : Z) :
  0 ≤ i → 0 ≤ strings.index_from i s l →
  strings.index_from i (s +:+ x) l = strings.index_from i s l.
Proof.
  revert i. induction s as [|c t IH]; intros i Hi.
  - cbn [strings.index_from]. destruct (strings.HasPrefix "" l) eqn:E; [|lia].
    intros _. destruct l; [|done]. change ("" +:+ x) with x.
    destruct x; cbn [strings.index_from]; by rewrite ?HasPrefix_nil.
  - intros H. pose proof (index_from_fits _ _ _ Hi H) as Hfit. revert H Hfit.
    change (String c t +:+ x) with (String c (t +:+ x)).
    cbn [strings.index_from].
    change (String c (t +:+ x)) with (String c t +:+ x).
    destruct (strings.HasPrefix (String c t) l) eqn:E.
    + intros _ _. rewrite HasPrefix_app_long, E; [done|].
      apply HasPrefix_spec in E as [post ->]. rewrite len_app.
      pose proof (len_nonneg post). lia.
    + intros H Hfit. rewrite HasPrefix_app_long, E.
      * by apply IH; [lia|].
      * rewrite index_from_shift in H.
        destruct (Z.ltb_spec (strings.index_from 0 t l) 0) as [|H0]; [lia|].
        pose proof (index_from_fits t l 0 ltac:(lia) H0).
        change (len (String c t)) with (1 + len t). lia.
Qed.

Lemma drop_app_le (n : Z) (x y : string) :
  n ≤ len x → drop n (x +:+ y) = drop n x +:+ y.
Proof.
  revert n. induction x as [|c x IH]; intros n Hn.
  - change (len "") with 0 in Hn. change ("" +:+ y) with y.
    destruct y; [done|]. cbn [drop]. by destruct (Z.leb_spec n 0); [|lia].
  - change (String c x +:+ y) with (String c (x +:+ y)). cbn [drop].
    change (len (String c x)) with (1 + len x) in Hn.
    destruct (Z.leb_spec n 0); [done|]. apply IH. lia.
Qed.

(** A line that does not end within [MaxScanTokenSize] bytes. *)
Lemma lines_long (long rest : string) :
  ∀ cur, has_byte "010" long = false → len cur < bufio.MaxScanTokenSize →
         bufio.MaxScanTokenSize ≤ len cur + len long →
         lines_within cur (long +:+ rest) = ([], Some ErrTooLong).
Proof.
  induction long as [|c l IH]; intros cur Hl Hcur Hfull.
  - change (len "") with 0 in Hfull. lia.
  - change (String c l +:+ rest) with (String c (l +:+ rest)).
    cbn [has_byte] in Hl. apply orb_false_iff in Hl as [Hc Hl].
    cbn [lines_within]. rewrite Hc.
    destruct (Z.leb_spec bufio.MaxScanTokenSize (len cur + 1)); [done|].
    apply IH; [done|..]; rewrite len_app; change (len (String c "")) with 1.
    + lia.
    + change (len (String c l)) with (1 + len l) in Hfull. lia.
Qed.

Lemma lines_cut (long rest : string) (r : string) :
  has_byte "010" long = false → bufio.MaxScanTokenSize ≤ len long →
  ∀ cur, (lines_within cur (r +:+ String "010" (long +:+ rest))).1
         = (lines_within cur (r +:+ String "010" "")).1.
Proof.
  intros Hl Hfull. induction r as [|c r IH]; intros cur.
  - change ("" +:+ String "010" (long +:+ rest)) with (String "010" (long +:+ rest)).
    change ("" +:+ String "010" "") with (String "010" "").
    cbn [lines_within]. change (Ascii.eqb "010" "010") with true. cbn iota.
    rewrite lines_long; [done|done|reflexivity|].
    change (len "") with 0. lia.
  - change (String c r +:+ String "010" (long +:+ rest))
      with (String c (r +:+ String "010" (long +:+ rest))).
    change (String c r +:+ String "010" "")
      with (String c (r +:+ String "010" "")).
    cbn [lines_within]. destruct (Ascii.eqb c "010").
    + specialize (IH "").
      destruct (lines_within "" (r +:+ String "010" (long +:+ rest))) as [ts e].
      destruct (lines_within "" (r +:+ String "010" "")) as [ts' e'].
      simpl in *. by rewrite IH.
    + destruct (bufio.MaxScanTokenSize <=? len cur + 1); [done|]. apply IH.
Qed.

End Long_lines.

(** X15.  A line of 65536 bytes or more ends the split without a word: in a
    content with a response, what the splitter returns is what it returns
    when the content ends before that line. *)
Theorem long_line_ends_the_split (Content long rest : string) :
  strings.Contains Content (String "010" "<") = true →
  has_byte "010" long = false →
  bufio.MaxScanTokenSize ≤ len long →
  SeperateContentIntoHeadersAndBody (Content +:+ String "010" (long +:+ rest))
  = SeperateContentIntoHeadersAndBody (Content +:+ String "010" "").
Proof.
  intros Hc Hl Hfull. rewrite !split_by_lines. cbn zeta.
  assert (Hr : ∀ x, response_of (Content +:+ x) = response_of Content +:+ x).
  { intros x. unfold response_of, strings.Index.
    unfold strings.Contains, strings.Index in Hc. apply Z.leb_le in Hc.
    rewrite index_from_app_found by done.
    destruct (Z.ltb_spec (strings.index_from 0 Content (String "010" "<")) 0);
      [lia|].
    apply drop_app_le.
    pose proof (index_from_fits Content (String "010" "<") 0 ltac:(lia) Hc) as Hf.
    change (len (String "010" "<")) with 2 in Hf. lia. }
  by rewrite !Hr, lines_cut.
Qed.

(** ** Counting tags *)

Section Tag_count.

Lemma lazy_closes (pos0 : Z) (s0 : string) (s : string) :
  ∀ pos cs,
    option_map fst
      (lazy (λ c, negb (Ascii.eqb c "010"))
         (λ pos' s' cs',
            run (chr ">") pos' s' ((1%nat, take (pos' - pos0) s0) :: cs') final)
         pos s cs)
    = option_map (λ n, pos + n + 1) (closes s).
Proof.
  induction s as [|c t IH]; intros pos cs; [reflexivity|].
  cbn [lazy closes]. unfold chr at 1. rewrite run_Class, (Ascii.eqb_sym ">" c).
  destruct (Ascii.eqb c ">"); [unfold final; simpl; f_equal; lia|].
  destruct (Ascii.eqb c "010"); [reflexivity|]. cbn [negb].
  rewrite IH. destruct (closes t) as [n|]; [|done]. simpl. f_equal. lia.
Qed.

Lemma match_tagsRegex (pos : Z) (s : string) :
  option_map fst (match_here tagsRegex pos s)
  = match s with
    | String c t =>
      if Ascii.eqb c "<" then option_map (λ n, pos + n + 2) (closes t) else None
    | EmptyString => None
    end.
Proof.
  unfold match_here, tagsRegex. cbn [cat]. rewrite run_Cat.
  unfold chr at 1. rewrite run_Class.
  destruct s as [|c t]; [done|]. rewrite (Ascii.eqb_sym "<" c).
  destruct (Ascii.eqb c "<"); [|done].
  rewrite run_Cat, run_Group. unfold dot. rewrite run_star_lazy.
  etrans; [apply (lazy_closes (pos + 1) t t (pos + 1) [])|].
  destruct (closes t) as [n|]; [|done]. simpl. f_equal. lia.
Qed.

Lemma closes_nonneg (s : string) (n : Z) : closes s = Some n → 0 ≤ n.
Proof.
  revert n. induction s as [|c t IH]; intros n; [done|]. cbn [closes].
  destruct (Ascii.eqb c ">"); [intros [= <-]; lia|].
  destruct (Ascii.eqb c "010"); [done|].
  destruct (closes t) as [m|]; [|done]. intros [= <-].
  specialize (IH m eq_refl). lia.
Qed.

(** An opening bracket that no closing bracket follows on its line does
    not count. *)
Lemma count_tags_unclosed (s : string) :
  closes s = None → count_tags true s = count_tags false s.
Proof.
  induction s as [|c t IH]; [done|]. cbn [closes count_tags].
  destruct (Ascii.eqb_spec c ">") as [->|Hgt]; [done|].
  destruct (Ascii.eqb_spec c "010") as [->|Hnl]; [done|].
  destruct (closes t) as [m|]; [done|]. intros _.
  destruct (Ascii.eqb c "<"); [done|]. by apply IH.
Qed.

Lemma all_from_tagsRegex (s : string) :
  ∀ pos prev,
    slice_len (all_from tagsRegex pos 0 prev s) = count_tags false s
    ∧ ∀ n, closes s = Some n →
           1 + slice_len (all_from tagsRegex pos (n + 1) prev s)
           = count_tags true s.
Proof.
  induction s as [|c t IH]; intros pos prev.
  - split; [|done]. cbn [all_from]. change (0 <? 0) with false. cbn iota.
    pose proof (match_tagsRegex pos "") as Hm.
    by destruct (match_here tagsRegex pos "") as [[e cs]|].
  - split.
    + cbn [all_from count_tags]. change (0 <? 0) with false. cbn iota.
      pose proof (match_tagsRegex pos (String c t)) as Hm.
      cbv beta iota in Hm.
      destruct (Ascii.eqb c "<") eqn:Hc.
      * destruct (closes t) as [n|] eqn:Hn.
        -- cbn [option_map] in Hm.
           destruct (match_here tagsRegex pos (String c t)) as [[e cs]|]; [|done].
           cbn [option_map fst] in Hm. injection Hm as ->.
           pose proof (closes_nonneg t n Hn).
           destruct (Z.eqb_spec (pos + n + 2) pos); [lia|].
           unfold slice_len. cbn [length]. rewrite Nat2Z.inj_succ.
           replace (pos + n + 2 - pos - 1) with (n + 1) by lia.
           destruct (IH (pos + 1) (pos + n + 2)) as [_ HB].
           specialize (HB n eq_refl). unfold slice_len in HB. lia.
        -- cbn [option_map] in Hm.
           destruct (match_here tagsRegex pos (String c t)) as [[e cs]|]; [done|].
           destruct (IH (pos + 1) prev) as [-> _].
           symmetry. by apply count_tags_unclosed.
      * destruct (match_here tagsRegex pos (String c t)) as [[e cs]|]; [done|].
        by destruct (IH (pos + 1) prev) as [-> _].
    + intros n Hn. pose proof (closes_nonneg _ n Hn).
      cbn [all_from]. destruct (Z.ltb_spec 0 (n + 1)); [|lia].
      replace (n + 1 - 1) with n by lia.
      cbn [closes count_tags] in *.
      destruct (Ascii.eqb c ">").
      * injection Hn as <-. by destruct (IH (pos + 1) prev) as [-> _].
      * destruct (Ascii.eqb c "010"); [done|].
        destruct (closes t) as [m|] eqn:Hm; [|done]. injection Hn as <-.
        destruct (IH (pos + 1) prev) as [_ HB]. specialize (HB m eq_refl).
        by replace (1 + m) with (m + 1) by lia.
Qed.

End Tag_count.

(** X11.  For a content type that mentions [html] or [xml], the tag count is the
    number of tags of the body: every opening angle bracket that a closing
    one follows on the same line starts a tag, which ends at the first
    closing bracket, and the count goes on after it; an opening bracket
    that waits in vain for the end of its line counts nothing. *)
Theorem CountTags_counts_closed_brackets (contentType body : string) :
  strings.Contains contentType "html" || strings.Contains contentType "xml" = true →
  CountTags contentType body = strconv.Itoa (count_tags false body).
Proof.
  intros H. unfold CountTags. rewrite H. f_equal. unfold FindAllString.
  by destruct (all_from_tagsRegex body 0 (-1)) as [-> _].
Qed.

(** ** What a run leaves alone *)

Section Untouched.

Context (url_Parse : string -> option url.URL) (fs : gmap string file).

Implicit Types (es : list entry) (order : list (string * list string)).

(** A grouped path is the path of an entry that the walk filed. *)
Lemma grouped_visited es (key p : string) (files : list string) :
  walk url_Parse fs es !! key = Some files → p ∈ files →
  ∃ e, e ∈ es ∧ path e = p ∧ accepted url_Parse fs e = Some key.
Proof. intros [-> _]%walk_lookup Hp. by apply elem_of_members. Qed.

Lemma accepted_file (e : entry) (key : string) :
  accepted url_Parse fs e = Some key → isDir e = false ∧ walkErr e = None.
Proof. intros (? & ? & _)%accepted_Some. done. Qed.

Lemma skipped_untouched (e : entry) (before after : list entry) order :
  accepted url_Parse fs e = None →
  path e ∉ path <$> (before ++ after) →
  order ≡ₚ map_to_list (walk url_Parse fs (before ++ e :: after)) →
  disk (prune fs order) !! path e = fs !! path e.
Proof.
  intros Ha Hp Hperm.
  apply (ungrouped_untouched url_Parse fs (before ++ e :: after)); [done|].
  intros key files Hl Hin.
  destruct (grouped_visited _ _ _ _ Hl Hin) as (e' & He' & Hpe & Ha').
  apply elem_of_app in He' as [He'|He'].
  - apply Hp. rewrite <- Hpe. apply list_elem_of_fmap. exists e'. split; [done|].
    apply elem_of_app. by left.
  - apply elem_of_cons in He' as [->|He']; [congruence|].
    apply Hp. rewrite <- Hpe. apply list_elem_of_fmap. exists e'. split; [done|].
    apply elem_of_app. by right.
Qed.

End Untouched.

(** X21.  A run creates and changes no file, and touches no path that the
    walk did not visit: what is on disk after the run was on disk before,
    with the same content, and a path that is not among the visited ones is
    on disk after the run exactly as before. *)
Theorem main_touches_only_visited_files (url_Parse : string -> option url.URL)
    (args : list string) (Walk : string -> list entry)
    (iter : gmap string (list string) -> list (string * list string))
    (fs : gmap string file) (st : pruning) :
  (∀ g, iter g ≡ₚ map_to_list g) →
  main url_Parse args Walk iter fs = Done st →
  (∀ p f, disk st !! p = Some f → fs !! p = Some f) ∧
  (∀ p, p ∉ path <$> Walk (nth 1 args "") → disk st !! p = fs !! p).
Proof.
  intros Hiter Hmain. unfold main in Hmain.
  destruct (slice_len args <? 2); [done|]. injection Hmain as <-. split.
  - intros p f. rewrite disk_prune. apply run_shrinks.
  - intros p Hp.
    apply (ungrouped_untouched url_Parse fs (Walk (nth 1 args ""))); [done|].
    intros key files Hl Hin.
    destruct (grouped_visited _ _ _ _ _ _ Hl Hin) as (e & He & <- & _).
    apply Hp, list_elem_of_fmap. by exists e.
Qed.

(** X22.  A directory, and an entry that the walk reports with an error, is
    passed over: the groups are those of the walk without the entry, and
    unless the same path is visited once more the pruning pass, in whatever
    order, leaves the path as it is. *)
Theorem directories_and_walk_errors_are_skipped
    (url_Parse : string -> option url.URL) (fs : gmap string file) (e : entry) :
  isDir e = true ∨ walkErr e ≠ None →
  ∀ before after,
    walk url_Parse fs (before ++ e :: after) = walk url_Parse fs (before ++ after) ∧
    (path e ∉ path <$> (before ++ after) →
     ∀ order, order ≡ₚ map_to_list (walk url_Parse fs (before ++ e :: after)) →
              disk (prune fs order) !! path e = fs !! path e).
Proof.
  intros He before after.
  assert (Ha : accepted url_Parse fs e = None).
  { destruct (accepted url_Parse fs e) as [key|] eqn:E; [|done].
    apply accepted_file in E as [Hd Hw]. destruct He; congruence. }
  split; [by apply walk_skips|].
  intros Hp order Hperm. by apply (skipped_untouched url_Parse fs e before after).
Qed.

(** ** The further properties on samples *)

Import Samples Cases.

(** A status line as a server sends it. *)
Lemma GetStatus_status_line_witness :
  GetStatus ("" +:+ "HTTP/" +:+ "1.1" +:+ " " +:+ "200" +:+ " " +:+ "OK") = "200".
Proof.
  apply (GetStatus_status_line "" "1.1" " " "200" " " "OK");
    solve [reflexivity | discriminate].
Defined.

(** Headers that begin with a content type. *)
Lemma GetStatus_absent_witness : GetStatus "Content-Type: text/html" = "".
Proof.
  apply GetStatus_absent. intros H%Contains_spec. vm_compute in H. discriminate.
Defined.

(** A title whose tags are written in capitals. *)
Lemma title_present_witness :
  CalculateTitleLength ("<html>" +:+ "<TITLE>" +:+ "Hello  World" +:+ "</Title>" +:+ "</html>")
  = strconv.Itoa (len "Hello  World")
  ∧ CalculateTitleWords ("<html>" +:+ "<TITLE>" +:+ "Hello  World" +:+ "</Title>" +:+ "</html>")
    = strconv.Itoa (slice_len (strings.Fields "Hello  World")).
Proof.
  apply (title_present "<html>" "<TITLE>" "Hello  World" "</Title>" "</html>");
    reflexivity.
Defined.

(** A body whose title is never closed. *)
Lemma title_absent_witness :
  CalculateTitleLength "<title>Hello" = "0" ∧ CalculateTitleWords "<title>Hello" = "0".
Proof.
  apply title_absent. right. intros H%Contains_spec. vm_compute in H. discriminate.
Defined.

(** A body with a tag that is closed on the next line only. *)
Lemma CountTags_counts_closed_brackets_witness :
  CountTags "text/html" ("<a href=x>link</a><b" +:+ nl +:+ ">")
  = strconv.Itoa (count_tags false ("<a href=x>link</a><b" +:+ nl +:+ ">")).
Proof.
  apply CountTags_counts_closed_brackets. reflexivity.
Defined.

(** A sample page, followed by a line of 65536 bytes and a last line. *)
Lemma long_line_ends_the_split_witness :
  SeperateContentIntoHeadersAndBody (page +:+ String "010" (long_line +:+ "</html>"))
  = SeperateContentIntoHeadersAndBody (page +:+ String "010" "").
Proof.
  apply (long_line_ends_the_split page long_line "</html>").
  - vm_compute. reflexivity.
  - vm_compute. reflexivity.
  - apply Z.leb_le. vm_compute. reflexivity.
Defined.

(** A sample page of the sample directory. *)
Lemma small_file_has_metrics_witness :
  ∃ m, computeMetrics parse_bare_path on_disk "out/a" = (m, None)
       ∧ FileMetrics.Words m = 0.
Proof.
  apply (small_file_has_metrics parse_bare_path on_disk "out/a" (File page true true)).
  - vm_compute. reflexivity.
  - reflexivity.
  - discriminate.
  - apply Z.leb_le. vm_compute. reflexivity.
Defined.


(** The sample directory without the file that cannot be removed: the
    second page is removed, and the first one stays. *)
Lemma main_removes_only_duplicates_witness :
  ∃ (q : string) (m mq : FileMetrics.t) (fq : file),
    q ≠ "out/b" ∧
    computeMetrics parse_bare_path on_disk "out/b" = (m, None) ∧
    computeMetrics parse_bare_path on_disk q = (mq, None) ∧
    keyForMetrics mq = keyForMetrics m ∧
    on_disk !! q = Some fq ∧
    disk (prune on_disk (map_to_list (walk parse_bare_path on_disk plain))) !! q
    = Some fq.
Proof.
  apply (main_removes_only_duplicates parse_bare_path ["megpost"; "out"]
           (λ _, plain) map_to_list on_disk
           (prune on_disk (map_to_list (walk parse_bare_path on_disk plain)))
           "out/b" (File page_again true true)).
  - reflexivity.
  - apply (bool_decide_unpack _). vm_compute. reflexivity.
  - reflexivity.
  - vm_compute. reflexivity.
  - vm_compute. reflexivity.
Defined.

(** A second run over what the first run left of the sample directory. *)
Lemma second_run_removes_nothing_witness :
  prune (disk (prune on_disk (map_to_list (walk parse_bare_path on_disk plain))))
    (map_to_list
       (walk parse_bare_path
          (disk (prune on_disk (map_to_list (walk parse_bare_path on_disk plain))))
          survivors))
  = Pruning (disk (prune on_disk (map_to_list (walk parse_bare_path on_disk plain))))
      0 [Total 0].
Proof.
  apply (second_run_removes_nothing parse_bare_path on_disk plain survivors
           (map_to_list (walk parse_bare_path on_disk plain))).
  - apply (bool_decide_unpack _). vm_compute. reflexivity.
  - reflexivity.
  - intros p f Hp.
    assert (Hd : doomed (map_to_list (walk parse_bare_path on_disk plain))
                 = ["out/b"; "out/e"]) by (vm_compute; reflexivity).
    rewrite Hd in Hp.
    apply elem_of_cons in Hp as [->|Hp];
      [|apply list_elem_of_singleton in Hp as ->];
      vm_compute; intros [= <-]; reflexivity.
  - intros e He. unfold survivors in He. unfold plain.
    repeat (apply elem_of_cons in He as [->|He]; [set_solver|]).
    by apply elem_of_nil in He.
  - apply (bool_decide_unpack _). vm_compute. reflexivity.
  - reflexivity.
Defined.

(** The sample directory: the file that is not among the entries of the
    walk stays, and so does every file that is left. *)
Lemma main_touches_only_visited_files_witness :
  (∀ p f,
     disk (prune on_disk (map_to_list (walk parse_bare_path on_disk plain))) !! p
     = Some f → on_disk !! p = Some f) ∧
  (∀ p, p ∉ path <$> plain →
        disk (prune on_disk (map_to_list (walk parse_bare_path on_disk plain))) !! p
        = on_disk !! p).
Proof.
  apply (main_touches_only_visited_files parse_bare_path ["megpost"; "out"]
           (λ _, plain) map_to_list on_disk
           (prune on_disk (map_to_list (walk parse_bare_path on_disk plain)))).
  - reflexivity.
  - reflexivity.
Defined.

(** The directory with which the sample walk begins. *)
Lemma directories_and_walk_errors_are_skipped_witness :
  walk parse_bare_path on_disk ([] ++ Entry "out" true None :: List.tail plain)
  = walk parse_bare_path on_disk ([] ++ List.tail plain) ∧
  (path (Entry "out" true None) ∉ path <$> ([] ++ List.tail plain) →
   ∀ order,
     order ≡ₚ map_to_list
                (walk parse_bare_path on_disk
                   ([] ++ Entry "out" true None :: List.tail plain)) →
     disk (prune on_disk order) !! path (Entry "out" true None)
     = on_disk !! path (Entry "out" true None)).
Proof.
  apply (directories_and_walk_errors_are_skipped parse_bare_path on_disk
           (Entry "out" true None) (or_introl eq_refl) [] (List.tail plain)).
Defined.
